(** * The storey splitter of [split_ifc_by_storey.py]

    A shallow embedding of the closure engine ([collect_dependencies]),
    the relationship index ([build_relationship_maps]) and the per-storey
    orchestration ([split_ifc_ultrafast], [main]), with the properties of
    the splitter stated over them.

    Conventions of the embedding.
    - An entity instance is a record with its step id, its declared type
      label and its attribute dictionary.  A Python reference to an entity
      instance is its id ([VRef]), resolved through the file it belongs to;
      this is what allows reference cycles.
    - The schema (which type label is a subtype of which marker) is a
      parameter [subtype] of every definition that calls [is_a].
    - A typed value ([IfcLabel('x')] and the like) is [VTyped]; ifcopenshell
      hands it out as an entity instance whose id is 0.
    - [collect_dependencies] renders the recursion with a budget of nested
      calls and answers [None] when the budget does not suffice;
      [collect_limited] is the same call under the interpreter's recursion
      limit, where the [RecursionError] is swallowed by the [except] of the
      caller.
    - What the statements outside every [try] depend on (the file system,
      the recursion limit) is the implicit [host]; the calls into
      ifcopenshell are taken to need no interpreter frame of their own, and
      [print] never to fail. *)

From Stdlib Require Import ZArith List Ascii Sorting.Permutation.
From stdpp Require Import gmap strings list sorting.

Open Scope N_scope.
Set Warnings "-register-all,-clear-no-such-hyp".

(** ** Data model *)

(** What a typed value wraps. *)
Inductive plain : Type :=
| PInt (z : Z)
| PStr (s : string).

(** What an attribute slot of an entity instance can hold. *)
Inductive value : Type :=
| VNone
| VInt (z : Z)
| VStr (s : string)
| VRef (i : N)
| VTyped (t : string) (wrapped : plain)
| VList (l : list value).

(** [eattrs = None] stands for an instance whose attribute data cannot be
    read: [get_info] and every attribute access on it raise. *)
Record entity_instance : Type := Entity {
  eid : N;
  etype : string;
  eattrs : option (list (string * value))
}.

(** An opened file: its instances in file order. *)
Definition ifc_file : Type := list entity_instance.

(** Outcome of a statement sequence that may raise. *)
Inductive exn (A : Type) : Type :=
| Ok (a : A)
| Raised.
Arguments Ok {A} a.
Arguments Raised {A}.

Definition exn_bind {A B} (m : exn A) (k : A → exn B) : exn B :=
  match m with Ok a => k a | Raised => Raised end.

Definition of_option {A} (o : option A) : exn A :=
  match o with Some a => Ok a | None => Raised end.

(** The failures the program does not handle: what the statements outside
    every [try] depend on.
    - [nesting]: how many calls of [collect_dependencies] may be nested
      inside the first one before the interpreter raises [RecursionError];
    - [exists_raises]: [input_path.exists()] raises (line 100);
    - [mkdir_raises]: an output directory was given and
      [output_dir.mkdir] raises (line 106);
    - [input_stat_raises]: [input_path.stat()] raises (line 139);
    - [summary_raises]: the [glob] or a [stat] of the verbose summary
      raises (lines 261-263). *)
Class host : Type := Host {
  nesting : nat;
  exists_raises : bool;
  mkdir_raises : bool;
  input_stat_raises : bool;
  summary_raises : bool
}.

(** CPython with its default recursion limit of 1000 frames, of which the
    module, [main], [split_ifc_ultrafast] and the first call of
    [collect_dependencies] take four, and a file system on which nothing
    outside a [try] fails. *)
#[global] Instance default_host : host | 100 :=
  Host 996 false false false false.
Section Schema.

(** [subtype t marker]: the type labelled [t] is [marker] or one of its
    subtypes in the schema of the file. *)
Variable subtype : string → string → bool.

Context {h : host}.

Definition is_a (e : entity_instance) (marker : string) : bool :=
  subtype (etype e) marker.

(** [ifc_file.by_id]; [None] is the [RuntimeError] of an unknown id. *)
Definition by_id (f : ifc_file) (i : N) : option entity_instance :=
  List.find (λ e, eid e =? i) f.

Definition by_type (f : ifc_file) (label : string) : list entity_instance :=
  List.filter (λ e, is_a e label) f.

(** [entity.get_info()]: the dictionary starts with the [id] and [type]
    entries, followed by the attributes. *)
Definition get_info (e : entity_instance) : option (list (string * value)) :=
  attrs ← eattrs e;
  Some (("id"%string, VInt (Z.of_N (eid e)))
        :: ("type"%string, VStr (etype e)) :: attrs).

Definition plain_value (w : plain) : value :=
  match w with
  | PInt z => VInt z
  | PStr s => VStr s
  end.

(** A typed value as the entity instance ifcopenshell makes of it: its id
    is 0 and its only attribute is the wrapped value. *)
Definition typed_instance (t : string) (w : plain) : entity_instance :=
  Entity 0 t (Some [("wrappedValue"%string, plain_value w)]).

(** [hasattr(v, 'id')]: the object is an entity instance, either an
    instance of the file or a typed value.  A reference that resolves to
    nothing is not an entity instance. *)
Definition as_entity (f : ifc_file) (v : value) : option entity_instance :=
  match v with
  | VRef i => by_id f i
  | VTyped t w => Some (typed_instance t w)
  | _ => None
  end.

(** ** The closure engine *)

(** One iteration of [for x in xs: visited = body(x, visited)], where the
    body may run out of fuel. *)
Fixpoint for_each {A S : Type} (body : A → S → option S) (xs : list A) (s : S)
  : option S :=
  match xs with
  | [] => Some s
  | x :: xs' =>
      match body x s with
      | Some s' => for_each body xs' s'
      | None => None
      end
  end.

(** [if hasattr(item, 'id') and not item.is_a("IfcRoot"): recurse] *)
Definition visit_item (f : ifc_file)
    (recurse : value → gset N → option (gset N))
    (item : value) (visited : gset N) : option (gset N) :=
  match as_entity f item with
  | Some r => if is_a r "IfcRoot" then Some visited else recurse item visited
  | None => Some visited
  end.

(** The body of [for value in info.values()]. *)
Definition visit_value (f : ifc_file)
    (recurse : value → gset N → option (gset N))
    (v : value) (visited : gset N) : option (gset N) :=
  match as_entity f v with
  | Some r => if is_a r "IfcRoot" then Some visited else recurse v visited
  | None =>
      match v with
      | VList items => for_each (visit_item f recurse) items visited
      | _ => Some visited
      end
  end.

(** [collect_dependencies(entity, visited, ifc_file)].  The result is the
    visited set after the call; [None] only when the fuel ran out. *)
Fixpoint collect_dependencies (fuel : nat) (f : ifc_file) (entity : value)
    (visited : gset N) : option (gset N) :=
  match fuel with
  | O => None
  | S fuel' =>
      match as_entity f entity with
      | None => Some visited
      | Some e =>
          if decide (eid e ∈ visited) then Some visited
          else
            let visited := {[eid e]} ∪ visited in
            match get_info e with
            | None => Some visited
            | Some info =>
                for_each (visit_value f (collect_dependencies fuel' f))
                         (map snd info) visited
            end
      end
  end.

(** *** The call under the recursion limit *)

(** The state of a loop of the [try] block: run to its end, or left by the
    [RecursionError] of a recursive call. *)
Inductive progress : Type :=
| Completed (visited : gset N)
| Interrupted (visited : gset N).

Definition visited_of (p : progress) : gset N :=
  match p with
  | Completed visited => visited
  | Interrupted visited => visited
  end.

Fixpoint loop_until {A : Type} (body : A → gset N → progress) (xs : list A)
    (visited : gset N) : progress :=
  match xs with
  | [] => Completed visited
  | x :: xs' =>
      match body x visited with
      | Completed visited' => loop_until body xs' visited'
      | Interrupted visited' => Interrupted visited'
      end
  end.

(** A recursive call inside the [try]: when it raises, nothing was added. *)
Definition recursive_call (recurse : value → gset N → exn (gset N))
    (v : value) (visited : gset N) : progress :=
  match recurse v visited with
  | Ok visited' => Completed visited'
  | Raised => Interrupted visited
  end.

Definition visit_item_limited (f : ifc_file)
    (recurse : value → gset N → exn (gset N))
    (item : value) (visited : gset N) : progress :=
  match as_entity f item with
  | Some r =>
      if is_a r "IfcRoot" then Completed visited
      else recursive_call recurse item visited
  | None => Completed visited
  end.

Definition visit_value_limited (f : ifc_file)
    (recurse : value → gset N → exn (gset N))
    (v : value) (visited : gset N) : progress :=
  match as_entity f v with
  | Some r =>
      if is_a r "IfcRoot" then Completed visited
      else recursive_call recurse v visited
  | None =>
      match v with
      | VList items => loop_until (visit_item_limited f recurse) items visited
      | _ => Completed visited
      end
  end.

(** [collect_dependencies(entity, visited, ifc_file)] when [limit] nested
    calls are still allowed.  With none left the call itself raises
    [RecursionError]; a call that starts always returns, because the
    [except: pass] of lines 83-84 ends its loops at the first recursive call
    that raises and keeps what was visited until then. *)
Fixpoint collect_limited (limit : nat) (f : ifc_file) (entity : value)
    (visited : gset N) : exn (gset N) :=
  match limit with
  | O => Raised
  | S limit' =>
      match as_entity f entity with
      | None => Ok visited
      | Some e =>
          if decide (eid e ∈ visited) then Ok visited
          else
            let visited := {[eid e]} ∪ visited in
            match get_info e with
            | None => Ok visited
            | Some info =>
                Ok (visited_of
                      (loop_until (visit_value_limited f (collect_limited limit' f))
                                  (map snd info) visited))
            end
      end
  end.

(** ** Attribute access *)

(** [entity.<name>]; [None] is an [AttributeError]. *)
Definition getattr (e : entity_instance) (name : string) : option value :=
  attrs ← eattrs e;
  snd <$> List.find (λ p, String.eqb (fst p) name) attrs.

Fixpoint chars (s : string) : list value :=
  match s with
  | EmptyString => []
  | String c s' => VStr (String c EmptyString) :: chars s'
  end.

(** [for x in v]: tuples and lists iterate over their items, a string over
    its characters; anything else raises [TypeError]. *)
Definition iterate (v : value) : option (list value) :=
  match v with
  | VList items => Some items
  | VStr s => Some (chars s)
  | _ => None
  end.

(** A Python object as the index sees it: [Some i] is an entity instance
    whose [id()] is [i] (the instance [#i] of the file, or a typed value
    when [i] is 0), [None] any other object.  [obj.id()] raises on the
    latter. *)
Definition obj : Type := option N.

Definition obj_of (f : ifc_file) (v : value) : obj := eid <$> as_entity f v.

(** [a == b] between an attribute value and an entity instance. *)
Definition value_is (f : ifc_file) (v : value) (e : entity_instance) : bool :=
  match as_entity f v with
  | Some e' => eid e' =? eid e
  | None => false
  end.

Fixpoint for_each_exn {A S : Type} (body : A → S → exn S) (xs : list A) (s : S)
  : exn S :=
  match xs with
  | [] => Ok s
  | x :: xs' => exn_bind (body x s) (for_each_exn body xs')
  end.

(** ** The relationship index *)

Record relationship_maps : Type := Maps {
  element_to_type : gmap N obj;
  element_to_materials : gmap N (list obj);
  element_to_psets : gmap N (list obj);
  storey_to_elements : gmap N (gset obj)
}.

(** [for element in rel.<related>: d[element.id()] = rel.<relating>] *)
Definition index_assign (f : ifc_file) (related relating : string)
    (rel : entity_instance) (d : gmap N obj) : exn (gmap N obj) :=
  exn_bind (of_option (getattr rel related ≫= iterate)) (λ elements,
    for_each_exn (λ element d,
        exn_bind (of_option (getattr rel relating)) (λ target,
        exn_bind (of_option (obj_of f element)) (λ k,
          Ok (<[k := obj_of f target]> d))))
      elements d).

(** [for element in rel.<related>: d[element.id()].append(rel.<relating>)]
    on a [defaultdict(list)]. *)
Definition index_append (f : ifc_file) (related relating : string)
    (rel : entity_instance) (d : gmap N (list obj)) : exn (gmap N (list obj)) :=
  exn_bind (of_option (getattr rel related ≫= iterate)) (λ elements,
    for_each_exn (λ element d,
        exn_bind (of_option (obj_of f element)) (λ k,
        exn_bind (of_option (getattr rel relating)) (λ target,
          Ok (<[k := default [] (d !! k) ++ [obj_of f target]]> d))))
      elements d).

(** [d[key].update(members)] on a [defaultdict(set)]. *)
Definition index_update (f : ifc_file) (key : N) (members : list value)
    (d : gmap N (gset obj)) : gmap N (gset obj) :=
  <[key := default ∅ (d !! key) ∪ list_to_set (map (obj_of f) members)]> d.

Definition index_contained (f : ifc_file) (rel : entity_instance)
    (d : gmap N (gset obj)) : exn (gmap N (gset obj)) :=
  exn_bind (of_option (getattr rel "RelatingStructure")) (λ structure,
  exn_bind (of_option (obj_of f structure)) (λ key,
  exn_bind (of_option (getattr rel "RelatedElements" ≫= iterate)) (λ members,
    Ok (index_update f key members d)))).

Definition index_aggregated (f : ifc_file) (rel : entity_instance)
    (d : gmap N (gset obj)) : exn (gmap N (gset obj)) :=
  exn_bind (of_option (getattr rel "RelatingObject")) (λ parent,
  exn_bind (of_option (as_entity f parent)) (λ p,
    if is_a p "IfcBuildingStorey" then
      exn_bind (of_option (getattr rel "RelatedObjects" ≫= iterate)) (λ members,
        Ok (index_update f (eid p) members d))
    else Ok d)).

Definition build_relationship_maps (f : ifc_file) : exn relationship_maps :=
  exn_bind (for_each_exn (index_assign f "RelatedObjects" "RelatingType")
              (by_type f "IfcRelDefinesByType") ∅) (λ types,
  exn_bind (for_each_exn (index_append f "RelatedObjects" "RelatingMaterial")
              (by_type f "IfcRelAssociatesMaterial") ∅) (λ materials,
  exn_bind (for_each_exn
              (index_append f "RelatedObjects" "RelatingPropertyDefinition")
              (by_type f "IfcRelDefinesByProperties") ∅) (λ psets,
  exn_bind (for_each_exn (index_contained f)
              (by_type f "IfcRelContainedInSpatialStructure") ∅) (λ contained,
  exn_bind (for_each_exn (index_aggregated f)
              (by_type f "IfcRelAggregates") contained) (λ storeys,
    Ok (Maps types materials psets storeys)))))).

(** ** The spatial hierarchy *)

(** The inner loop [for obj in rel.RelatedObjects: if obj.is_a(marker):
    found = obj; break], started with the current value of [found]. *)
Fixpoint first_is_a (f : ifc_file) (marker : string) (items : list value)
    (found : option entity_instance) : exn (option entity_instance) :=
  match items with
  | [] => Ok found
  | o :: rest =>
      match as_entity f o with
      | None => Raised
      | Some e =>
          if is_a e marker then Ok (Some e) else first_is_a f marker rest found
      end
  end.

(** The body of the outer loop [for rel in by_type("IfcRelAggregates")]. *)
Definition scan_aggregate (f : ifc_file) (parent : entity_instance)
    (marker : string) (rel : entity_instance) (found : option entity_instance)
  : exn (option entity_instance) :=
  exn_bind (of_option (getattr rel "RelatingObject")) (λ relating,
    if value_is f relating parent then
      exn_bind (of_option (getattr rel "RelatedObjects" ≫= iterate)) (λ related,
        first_is_a f marker related found)
    else Ok found).

Definition find_child (f : ifc_file) (parent : entity_instance)
    (marker : string) : exn (option entity_instance) :=
  for_each_exn (scan_aggregate f parent marker) (by_type f "IfcRelAggregates") None.

(** Lines 141-159: the site under the project, the building under the site. *)
Definition resolve_hierarchy (f : ifc_file) (project : option entity_instance)
  : exn (option entity_instance * option entity_instance) :=
  exn_bind (match project with
            | Some p => find_child f p "IfcSite"
            | None => Ok None
            end) (λ site,
  exn_bind (match site with
            | Some s => find_child f s "IfcBuilding"
            | None => Ok None
            end) (λ building,
    Ok (site, building))).

(** ** The partition planner *)

Definition add_opt (e : option entity_instance) (s : gset N) : gset N :=
  match e with
  | Some e => {[eid e]} ∪ s
  | None => s
  end.

(** [for x in xs: entities_to_copy.add(x.id())] *)
Definition add_ids (xs : list obj) (s : gset N) : exn (gset N) :=
  for_each_exn (λ x s, exn_bind (of_option x) (λ i, Ok ({[i]} ∪ s))) xs s.

(** The body of [for element in elements] (lines 192-208). *)
Definition add_element (maps : relationship_maps) (element : obj) (s : gset N)
  : exn (gset N) :=
  exn_bind (of_option element) (λ i,
    let s := {[i]} ∪ s in
    exn_bind (match element_to_type maps !! i with
              | Some type_obj =>
                  exn_bind (of_option type_obj) (λ t, Ok ({[t]} ∪ s))
              | None => Ok s
              end) (λ s,
    exn_bind (match element_to_materials maps !! i with
              | Some materials => add_ids materials s
              | None => Ok s
              end) (λ s,
    match element_to_psets maps !! i with
    | Some psets => add_ids psets s
    | None => Ok s
    end))).

(** [maps['storey_to_elements'].get(storey.id(), set())] *)
Definition members (maps : relationship_maps) (storey : entity_instance)
  : gset obj :=
  default ∅ (storey_to_elements maps !! eid storey).

(** Lines 180-208. *)
Definition entities_to_copy (maps : relationship_maps)
    (project site building : option entity_instance) (storey : entity_instance)
  : exn (gset N) :=
  let s := add_opt project ∅ in
  let s := add_opt site s in
  let s := add_opt building s in
  let s := {[eid storey]} ∪ s in
  for_each_exn (add_element maps) (elements (members maps storey)) s.

(** Lines 215-218: the visited set is shared by all the seeds. *)
Definition collect_seed (f : ifc_file) (entity_id : N) (visited : gset N)
  : exn (gset N) :=
  exn_bind (of_option (by_id f entity_id)) (λ entity,
    collect_limited (S nesting) f (VRef (eid entity)) visited).

Definition non_root_deps (f : ifc_file) (seeds : gset N) : exn (gset N) :=
  for_each_exn (collect_seed f) (elements seeds) ∅.

(** ** The materializer *)

(** The lines the program prints about failures.  The progress lines of
    verbose mode are left out; in quiet mode these are all the output. *)
Inductive message : Type :=
| ImportFailed
| FileNotFound
| OpenFailed
| NoStoreys
| CouldNotCopy (entity_id : N)
| PartitionError (idx : nat).

(** [sorted(all_entity_ids)] *)
Definition sorted (s : gset N) : list N := merge_sort N.le (elements s).

(** Lines 232-238.  [add_raises] tells for which instances [new_file.add]
    raises.  [new_file] is the sequence of the instances on which
    [new_file.add] was called and returned, in the order of the calls; what
    the library stores for them is [store_of]. *)
Fixpoint copy_entities (add_raises : entity_instance → bool) (verbose : bool)
    (f : ifc_file) (ids : list N)
    (new_file : list entity_instance) (log : list message)
  : list entity_instance * list message :=
  match ids with
  | [] => (new_file, log)
  | entity_id :: rest =>
      let warning := if verbose then [CouldNotCopy entity_id] else [] in
      match by_id f entity_id with
      | Some entity =>
          if add_raises entity
          then copy_entities add_raises verbose f rest new_file (log ++ warning)
          else copy_entities add_raises verbose f rest (new_file ++ [entity]) log
      | None => copy_entities add_raises verbose f rest new_file (log ++ warning)
      end
  end.

(** *** What [new_file.add] stores *)





(** ** The orchestrator *)

(** What lies outside the program: the interpreter's packages, the file
    system and the library calls whose failure the program handles. *)
Record environment : Type := Env {
  ifcopenshell_importable : bool;
  input_exists : bool;
  open_file : option ifc_file;
  add_raises : nat → entity_instance → bool;
  write_raises : nat → bool
}.

(** The body of the [try] of one storey (lines 172-249): the printed
    failure lines and, when nothing propagated, the written file. *)
Definition process_storey (env : environment) (verbose : bool) (f : ifc_file)
    (maps : relationship_maps) (project site building : option entity_instance)
    (idx : nat) (storey : entity_instance)
  : list message * exn (list entity_instance) :=
  match entities_to_copy maps project site building storey with
  | Raised => ([PartitionError idx], Raised)
  | Ok roots =>
      match non_root_deps f roots with
      | Raised => ([PartitionError idx], Raised)
      | Ok deps =>
          let '(new_file, log) :=
            copy_entities (add_raises env idx) verbose f (sorted (roots ∪ deps)) [] [] in
          if write_raises env idx
          then (log ++ [PartitionError idx], Raised)
          else (log, Ok new_file)
      end
  end.

Record run : Type := Run {
  returned : exn bool;
  partitions : list (exn (list entity_instance));
  printed : list message
}.

(** Lines 163-167 stand outside the [try].  [Name] is an optional IfcLabel,
    which ifcopenshell hands out as a [str] or as [None]; with either the
    header of the loop body computes the name of the output file.  On an
    instance whose [Name] cannot be read as one of the two, the header
    raises. *)
Definition name_readable (storey : entity_instance) : bool :=
  match getattr storey "Name" with
  | Some (VStr _) => true
  | Some VNone => true
  | _ => false
  end.

(** Lines 162-255.  [body] is the [try] block, whose exceptions line 251
    catches.  The loop gives the results of the storeys whose [try] block
    was entered, and whether it ran to its end: an exception of the header
    leaves the loop and the function. *)
Fixpoint storey_loop
    (body : nat → entity_instance → list message * exn (list entity_instance))
    (idx : nat) (storeys : list entity_instance)
  : list (list message * exn (list entity_instance)) * bool :=
  match storeys with
  | [] => ([], true)
  | storey :: rest =>
      if name_readable storey then
        let '(results, completed) := storey_loop body (S idx) rest in
        (body idx storey :: results, completed)
      else ([], false)
  end.

(** Lines 87-272.  [partitions] has one entry for each storey whose [try]
    block was entered; what an earlier storey wrote stays written when a
    later statement raises. *)
Definition split_ifc_ultrafast (env : environment) (verbose : bool) : run :=
  if negb (ifcopenshell_importable env) then Run (Ok false) [] [ImportFailed]
  else if exists_raises then Run Raised [] []
  else if negb (input_exists env) then Run (Ok false) [] [FileNotFound]
  else if mkdir_raises then Run Raised [] []
  else
    match open_file env with
    | None => Run (Ok false) [] [OpenFailed]
    | Some f =>
        match build_relationship_maps f with
        | Raised => Run Raised [] []
        | Ok maps =>
            let project := head (by_type f "IfcProject") in
            let storeys := by_type f "IfcBuildingStorey" in
            match storeys with
            | [] => Run (Ok false) [] [NoStoreys]
            | _ =>
                if input_stat_raises then Run Raised [] []
                else
                  match resolve_hierarchy f project with
                  | Raised => Run Raised [] []
                  | Ok (site, building) =>
                      let '(results, completed) :=
                        storey_loop
                          (process_storey env verbose f maps project site building)
                          0 storeys in
                      Run (if completed && negb (verbose && summary_raises)
                           then Ok true else Raised)
                          (map snd results) (concat (map fst results))
                  end
            end
        end
    end.


Definition succeeded (p : exn (list entity_instance)) : bool :=
  match p with Ok _ => true | Raised => false end.

(** ** Vocabulary of the statements *)

Local Abbreviation is_root := (λ e, is_a e "IfcRoot").

(** The objects [visit_item] recurses on. *)
Definition item_targets (f : ifc_file) (item : value) : list value :=
  match as_entity f item with
  | Some r => if is_root r then [] else [item]
  | None => []
  end.

(** The objects [visit_value] recurses on, in the order of the calls. *)
Definition value_targets (f : ifc_file) (v : value) : list value :=
  match as_entity f v with
  | Some r => if is_root r then [] else [v]
  | None =>
      match v with
      | VList items => flat_map (item_targets f) items
      | _ => []
      end
  end.

(** The objects the body of [collect_dependencies] recurses on for [e]. *)
Definition successors (f : ifc_file) (e : entity_instance) : list value :=
  match get_info e with
  | Some info => flat_map (value_targets f) (map snd info)
  | None => []
  end.

(** [dep f i j]: visiting [#i] makes a recursive call on an entity instance
    whose id is [j]. *)
Definition dep (f : ifc_file) (i j : N) : Prop :=
  ∃ e v, by_id f i = Some e ∧ v ∈ successors f e ∧ obj_of f v = Some j.



(** [i] is the id of an entity instance that is not root-typed: an instance
    of the file, or a typed value, whose id is 0. *)
Definition non_root_id (f : ifc_file) (i : N) : Prop :=
  ∃ v r, as_entity f v = Some r ∧ eid r = i ∧ is_root r = false.


(** What every call establishes, wherever the recursion limit cuts it
    short: nothing is lost, and every id it added is reached from the id of
    [v]. *)
Definition call_sound (f : ifc_file) (v : value) (V V' : gset N) : Prop :=
  V ⊆ V'
  ∧ (∀ x, x ∈ V' → x ∉ V →
       ∃ r, as_entity f v = Some r ∧ rtc (dep f) (eid r) x).


(** The ids of the instances of a file. *)
Definition ids (f : ifc_file) : gset N := list_to_set (map eid f).






(** [v] holds the object [w] where the traversal looks for one: it is [w],
    or a list with the item [w]. *)
Definition mentions (v w : value) : Prop :=
  v = w ∨ ∃ items, v = VList items ∧ w ∈ items.

(** [#x] is the type, a material or a property set that the index records
    for the element [#i]. *)
Definition associated (maps : relationship_maps) (i x : N) : Prop :=
  element_to_type maps !! i = Some (Some x)
  ∨ (∃ ms, element_to_materials maps !! i = Some ms ∧ Some x ∈ ms)
  ∨ (∃ ps, element_to_psets maps !! i = Some ps ∧ Some x ∈ ps).

(** [#x] enters the explicit roots on behalf of the member element [#i]. *)
Definition contributes (maps : relationship_maps) (i x : N) : Prop :=
  x = i ∨ associated maps i x.

(** [#x] is the storey itself or is associated with one of its members. *)
Definition attached (maps : relationship_maps) (storey : entity_instance) (x : N)
  : Prop :=
  x = eid storey ∨ ∃ i, Some i ∈ members maps storey ∧ associated maps i x.

(** The ids of the resolved ancestors of the storeys. *)
Definition ancestor_chain (project site building : option entity_instance)
  : gset N :=
  add_opt building (add_opt site (add_opt project ∅)).

(** [by_id] fails or [new_file.add] raises for [#i]. *)
Definition copy_fails (add_raises : entity_instance → bool) (f : ifc_file) (i : N)
  : bool :=
  match by_id f i with
  | Some entity => add_raises entity
  | None => true
  end.

(** The lines printed for the ids whose copy failed. *)
Definition warnings (verbose : bool) (failed : list N) : list message :=
  if verbose then map CouldNotCopy failed else [].

(** An object that makes the planner raise: a member that is not an
    entity instance, or a member whose recorded type, one of whose recorded
    materials or one of whose recorded property sets is not one. *)
Definition unusable (maps : relationship_maps) (o : obj) : Prop :=
  o = None
  ∨ ∃ i, o = Some i
      ∧ (element_to_type maps !! i = Some None
         ∨ (∃ ms, element_to_materials maps !! i = Some ms ∧ None ∈ ms)
         ∨ (∃ ps, element_to_psets maps !! i = Some ps ∧ None ∈ ps)).

(** The storeys whose [try] block is entered: those before the first one
    whose name cannot be read. *)
Fixpoint attempted (storeys : list entity_instance) : list entity_instance :=
  match storeys with
  | [] => []
  | storey :: rest =>
      if name_readable storey then storey :: attempted rest else []
  end.

(** The warning of line 238. *)
Definition is_copy_warning (m : message) : bool :=
  match m with
  | CouldNotCopy _ => true
  | _ => false
  end.

(** The relation [rel] lists the element [#k] under the attribute [related]
    and holds the object [x] under the attribute [relating]. *)
Definition associates (f : ifc_file) (related relating : string)
    (rel : entity_instance) (k : N) (x : obj) : Prop :=
  ∃ elements target,
    getattr rel related ≫= iterate = Some elements
    ∧ getattr rel relating = Some target
    ∧ (∃ element, element ∈ elements ∧ obj_of f element = Some k)
    ∧ x = obj_of f target.

(** The containment relation [rel] places the object [x] in the structure
    [#key]. *)
Definition contains_in (f : ifc_file) (rel : entity_instance) (key : N) (x : obj)
  : Prop :=
  ∃ structure related,
    getattr rel "RelatingStructure" = Some structure
    ∧ obj_of f structure = Some key
    ∧ getattr rel "RelatedElements" ≫= iterate = Some related
    ∧ ∃ v, v ∈ related ∧ x = obj_of f v.

(** The aggregation [rel] places the object [x] under the storey [#key]. *)
Definition aggregates_in (f : ifc_file) (rel : entity_instance) (key : N) (x : obj)
  : Prop :=
  ∃ parent p related,
    getattr rel "RelatingObject" = Some parent
    ∧ as_entity f parent = Some p
    ∧ eid p = key
    ∧ is_a p "IfcBuildingStorey" = true
    ∧ getattr rel "RelatedObjects" ≫= iterate = Some related
    ∧ ∃ v, v ∈ related ∧ x = obj_of f v.

(** The relation [rel] aggregates under [parent] an object that is the
    entity [e]. *)
Definition aggregates_entity (f : ifc_file) (parent : entity_instance)
    (rel : entity_instance) (e : entity_instance) : Prop :=
  ∃ relating related,
    getattr rel "RelatingObject" = Some relating
    ∧ value_is f relating parent = true
    ∧ getattr rel "RelatedObjects" ≫= iterate = Some related
    ∧ ∃ v, v ∈ related ∧ as_entity f v = Some e.

End Schema.

(** * Sample inputs *)

Open Scope string_scope.

Definition root_types : list string :=
  ["IfcProject"; "IfcSite"; "IfcBuilding"; "IfcBuildingStorey"; "IfcWall";
   "IfcWallType"; "IfcPropertySet"; "IfcRelAggregates";
   "IfcRelContainedInSpatialStructure"; "IfcRelDefinesByType";
   "IfcRelAssociatesMaterial"; "IfcRelDefinesByProperties"].

(** A fragment of the IFC4 schema: every label is its own marker, and the
    labels of [root_types] are subtypes of [IfcRoot]. *)
Definition ifc4 (t marker : string) : bool :=
  String.eqb t marker
  || (String.eqb marker "IfcRoot" && bool_decide (t ∈ root_types)).

Definition refs (l : list N) : value := VList (map VRef l).

(** One storey and nothing else. *)
Definition single_storey : ifc_file :=
  [ Entity 1 "IfcBuildingStorey" (Some [("Name", VStr "L1")]) ].

(** A B-spline surface: its control points are a list of lists. *)
Definition spline : ifc_file :=
  [ Entity 1 "IfcBSplineSurface"
      (Some [("UDegree", VInt 1);
             ("ControlPointsList", VList [refs [2; 3]; refs [4; 5]])]);
    Entity 2 "IfcCartesianPoint" (Some []);
    Entity 3 "IfcCartesianPoint" (Some []);
    Entity 4 "IfcCartesianPoint" (Some []);
    Entity 5 "IfcCartesianPoint" (Some []) ].

(** A project that aggregates two sites through two relations. *)
Definition two_sites : ifc_file :=
  [ Entity 1 "IfcProject" (Some [("Name", VStr "P")]);
    Entity 2 "IfcSite" (Some [("Name", VStr "A")]);
    Entity 3 "IfcSite" (Some [("Name", VStr "B")]);
    Entity 10 "IfcRelAggregates"
      (Some [("RelatingObject", VRef 1); ("RelatedObjects", refs [2])]);
    Entity 11 "IfcRelAggregates"
      (Some [("RelatingObject", VRef 1); ("RelatedObjects", refs [3])]) ].

(** The same project with a storey, as a file the splitter accepts. *)
Definition two_sites_storey : ifc_file :=
  [ Entity 1 "IfcProject" (Some [("Name", VStr "P")]);
    Entity 2 "IfcSite" (Some [("Name", VStr "A")]);
    Entity 3 "IfcSite" (Some [("Name", VStr "B")]);
    Entity 4 "IfcBuildingStorey" (Some [("Name", VStr "L1")]);
    Entity 10 "IfcRelAggregates"
      (Some [("RelatingObject", VRef 1); ("RelatedObjects", refs [2])]);
    Entity 11 "IfcRelAggregates"
      (Some [("RelatingObject", VRef 1); ("RelatedObjects", refs [3])]) ].

(** Two storeys; walls [#10], [#11] in the first and [#12] in the second,
    all three of material [#20]. *)
Definition scenario_a : ifc_file :=
  [ Entity 1 "IfcProject" (Some [("Name", VStr "P")]);
    Entity 2 "IfcSite" (Some [("Name", VStr "S")]);
    Entity 3 "IfcBuilding" (Some [("Name", VStr "B")]);
    Entity 4 "IfcBuildingStorey" (Some [("Name", VStr "S1")]);
    Entity 5 "IfcBuildingStorey" (Some [("Name", VStr "S2")]);
    Entity 10 "IfcWall" (Some [("Name", VStr "e1"); ("Representation", VRef 40)]);
    Entity 11 "IfcWall" (Some [("Name", VStr "e2"); ("Representation", VNone)]);
    Entity 12 "IfcWall" (Some [("Name", VStr "e3"); ("Representation", VNone)]);
    Entity 20 "IfcMaterial" (Some [("Name", VStr "M1")]);
    Entity 30 "IfcRelAggregates"
      (Some [("RelatingObject", VRef 1); ("RelatedObjects", refs [2])]);
    Entity 31 "IfcRelAggregates"
      (Some [("RelatingObject", VRef 2); ("RelatedObjects", refs [3])]);
    Entity 32 "IfcRelAggregates"
      (Some [("RelatingObject", VRef 3); ("RelatedObjects", refs [4; 5])]);
    Entity 33 "IfcRelContainedInSpatialStructure"
      (Some [("RelatedElements", refs [10; 11]); ("RelatingStructure", VRef 4)]);
    Entity 34 "IfcRelContainedInSpatialStructure"
      (Some [("RelatedElements", refs [12]); ("RelatingStructure", VRef 5)]);
    Entity 35 "IfcRelAssociatesMaterial"
      (Some [("RelatedObjects", refs [10; 11; 12]); ("RelatingMaterial", VRef 20)]);
    Entity 40 "IfcProductDefinitionShape" (Some [("Representations", refs [41])]);
    Entity 41 "IfcShapeRepresentation" (Some [("Items", refs [])]) ].

(** The index of [scenario_a], as [build_relationship_maps] computes it. *)
Definition scenario_a_maps : relationship_maps :=
  match build_relationship_maps ifc4 scenario_a with
  | Ok maps => maps
  | Raised => Maps ∅ ∅ ∅ ∅
  end.

Definition scenario_a_project : option entity_instance := by_id scenario_a 1.
Definition scenario_a_site : option entity_instance := by_id scenario_a 2.
Definition scenario_a_building : option entity_instance := by_id scenario_a 3.
Definition storey_1 : entity_instance :=
  Entity 4 "IfcBuildingStorey" (Some [("Name", VStr "S1")]).
Definition storey_2 : entity_instance :=
  Entity 5 "IfcBuildingStorey" (Some [("Name", VStr "S2")]).


(** Everything works. *)
Definition env_ok : environment :=
  Env true true (Some scenario_a) (λ _ _, false) (λ _, false).


(** Every [new_file.add] raises. *)
Definition env_no_add : environment :=
  Env true true (Some scenario_a) (λ _ _, true) (λ _, false).

(** An instance whose attribute data cannot be read, referenced by a wall. *)
Definition unreadable : ifc_file :=
  [ Entity 1 "IfcWall" (Some [("Representation", VRef 2)]);
    Entity 2 "IfcProductDefinitionShape" None ].


(** A property set whose property holds a typed value. *)
Definition typed_property : ifc_file :=
  [ Entity 16 "IfcPropertySet"
      (Some [("Name", VStr "Pset_WallCommon"); ("HasProperties", refs [17])]);
    Entity 17 "IfcPropertySingleValue"
      (Some [("Name", VStr "Reference");
             ("NominalValue", VTyped "IfcLabel" (PStr "W1"))]) ].






(** The file with two sites and a storey, and everything works. *)
Definition env_two_sites : environment :=
  Env true true (Some two_sites_storey) (λ _ _, false) (λ _, false).

(** A readable file without any storey. *)
Definition env_no_storey : environment :=
  Env true true (Some two_sites) (λ _ _, false) (λ _, false).

(** Only the write of the first storey raises. *)
Definition env_first_write_fails : environment :=
  Env true true (Some scenario_a) (λ _ _, false) (λ idx, bool_decide (idx = 0%nat)).

(** A wall with a type and a property set, in one storey. *)
Definition typed_wall : ifc_file :=
  [ Entity 4 "IfcBuildingStorey" (Some [("Name", VStr "S1")]);
    Entity 10 "IfcWall" (Some [("Name", VStr "e1")]);
    Entity 15 "IfcWallType" (Some [("Name", VStr "T")]);
    Entity 16 "IfcPropertySet" (Some [("Name", VStr "Pset_WallCommon")]);
    Entity 33 "IfcRelContainedInSpatialStructure"
      (Some [("RelatedElements", refs [10]); ("RelatingStructure", VRef 4)]);
    Entity 36 "IfcRelDefinesByType"
      (Some [("RelatedObjects", refs [10]); ("RelatingType", VRef 15)]);
    Entity 37 "IfcRelDefinesByProperties"
      (Some [("RelatedObjects", refs [10]);
             ("RelatingPropertyDefinition", VRef 16)]) ].

(** The index of [typed_wall], as [build_relationship_maps] computes it. *)
Definition typed_wall_maps : relationship_maps :=
  match build_relationship_maps ifc4 typed_wall with
  | Ok maps => maps
  | Raised => Maps ∅ ∅ ∅ ∅
  end.

(** ** The name of an output file *)

Section Naming.

(** [str.isalnum] and the whitespace that [str.strip] removes, character by
    character; a character is one [ascii]. *)
Variables isalnum isspace : ascii → bool.

(** [c.isalnum() or c in (' ', '-', '_')] *)
Definition kept (c : ascii) : bool :=
  isalnum c || bool_decide (c ∈ [" "; "-"; "_"]%char).

Fixpoint lstrip (s : list ascii) : list ascii :=
  match s with
  | [] => []
  | c :: s' => if isspace c then lstrip s' else s
  end.

(** [s.strip()] *)
Definition strip (s : list ascii) : list ascii := rev (lstrip (rev (lstrip s))).

(** [s.replace(' ', '_')] *)
Definition replace_spaces (s : list ascii) : list ascii :=
  map (λ c, if Ascii.eqb c " " then "_"%char else c) s.

(** Line 164. *)
Definition safe_name (storey_name : string) : string :=
  String.string_of_list_ascii
    (replace_spaces
       (strip (List.filter kept (String.list_ascii_of_string storey_name)))).

End Naming.

(** The letters and digits of ASCII. *)
Definition ascii_isalnum (c : ascii) : bool :=
  let n := nat_of_ascii c in
  ((48 <=? n) && (n <=? 57) || (65 <=? n) && (n <=? 90)
   || (97 <=? n) && (n <=? 122))%nat.

(** The whitespace of ASCII. *)
Definition ascii_isspace (c : ascii) : bool :=
  let n := nat_of_ascii c in
  ((9 <=? n) && (n <=? 13) || (28 <=? n) && (n <=? 32))%nat.

Close Scope string_scope.

(** * Properties *)

Section Closure.

Variable subtype : string → string → bool.

Context {h : host}.

Local Abbreviation is_root := (λ e, is_a subtype e "IfcRoot").
Local Abbreviation collect := (collect_dependencies subtype).
Local Abbreviation limited := (collect_limited subtype).


(** ** Lookups *)

Lemma by_id_Some (f : ifc_file) (i : N) (e : entity_instance) :
  by_id f i = Some e → eid e = i ∧ e ∈ f.
Proof.
  unfold by_id. intros H. apply find_some in H as [Hin Heq].
  split; [by apply N.eqb_eq | by apply list_elem_of_In].
Qed.

Lemma by_id_is_Some (f : ifc_file) (i : N) :
  is_Some (by_id f i) ↔ i ∈ map eid f.
Proof.
  unfold by_id. induction f as [|e f IH]; simpl.
  - split; [intros [? ?]; done | intros H; inversion H].
  - destruct (N.eqb_spec (eid e) i) as [->|Hne].
    + split; [intros _; left | eauto].
    + rewrite IH. split; [by right | intros H; inversion H; done].
Qed.

(** An entity instance is an instance of the file or a typed value. *)
Lemma as_entity_Some (f : ifc_file) (v : value) (e : entity_instance) :
  as_entity f v = Some e →
  (v = VRef (eid e) ∧ by_id f (eid e) = Some e)
  ∨ (∃ t w, v = VTyped t w ∧ e = typed_instance t w).
Proof.
  destruct v; simpl; try done.
  - intros H. left. destruct (by_id_Some _ _ _ H) as [<- _]. done.
  - intros [= <-]. right. eauto.
Qed.

Lemma obj_of_Some (f : ifc_file) (v : value) (j : N) :
  obj_of f v = Some j ↔ ∃ r, as_entity f v = Some r ∧ eid r = j.
Proof.
  unfold obj_of. destruct (as_entity f v) as [r|]; simpl.
  - split; [intros [= <-]; eauto | by intros (? & [= <-] & <-)].
  - split; [done | by intros (? & ? & _)].
Qed.

(** ** The objects a call descends into *)

Lemma for_each_app {A S} (body : A → S → option S) (xs ys : list A) (s : S) :
  for_each body (xs ++ ys) s = for_each body xs s ≫= for_each body ys.
Proof.
  revert s. induction xs as [|x xs IH]; intros s; simpl; [done|].
  destruct (body x s); simpl; [apply IH | done].
Qed.

Lemma for_each_flat_map {A B S} (body : A → S → option S) (inner : B → S → option S)
    (g : A → list B) (xs : list A) (s : S) :
  (∀ x s, body x s = for_each inner (g x) s) →
  for_each body xs s = for_each inner (flat_map g xs) s.
Proof.
  intros Hbody. revert s. induction xs as [|x xs IH]; intros s; simpl; [done|].
  rewrite for_each_app, Hbody. destruct (for_each inner (g x) s); simpl; [apply IH | done].
Qed.

Lemma visit_item_targets (f : ifc_file) (recurse : value → gset N → option (gset N))
    (item : value) (visited : gset N) :
  visit_item subtype f recurse item visited
  = for_each recurse (item_targets subtype f item) visited.
Proof.
  unfold visit_item, item_targets.
  destruct (as_entity f item) as [r|] eqn:Hr; [|done].
  destruct (is_a subtype r "IfcRoot"); simpl; [done|].
  by destruct (recurse _ _).
Qed.

Lemma visit_value_targets (f : ifc_file) (recurse : value → gset N → option (gset N))
    (v : value) (visited : gset N) :
  visit_value subtype f recurse v visited
  = for_each recurse (value_targets subtype f v) visited.
Proof.
  unfold visit_value, value_targets.
  destruct (as_entity f v) as [r|] eqn:Hr.
  - destruct (is_a subtype r "IfcRoot"); simpl; [done|].
    by destruct (recurse _ _).
  - destruct v; try done.
    apply for_each_flat_map. intros. apply visit_item_targets.
Qed.

(** One level of the recursion, as a loop over [successors]. *)
Lemma collect_unfold (n : nat) (f : ifc_file) (entity : value) (visited : gset N) :
  collect (S n) f entity visited =
  match as_entity f entity with
  | None => Some visited
  | Some e =>
      if decide (eid e ∈ visited) then Some visited
      else for_each (collect n f) (successors subtype f e) ({[eid e]} ∪ visited)
  end.
Proof.
  simpl. destruct (as_entity f entity) as [e|]; [|done].
  destruct (decide _); [done|].
  unfold successors. destruct (get_info e) as [info|]; [|done].
  apply for_each_flat_map. intros. apply visit_value_targets.
Qed.

Lemma item_targets_spec (f : ifc_file) (item w : value) :
  w ∈ item_targets subtype f item ↔
  item = w ∧ ∃ r, as_entity f w = Some r ∧ is_root r = false.
Proof.
  unfold item_targets. destruct (as_entity f item) as [r|] eqn:Hr.
  - destruct (is_a subtype r "IfcRoot") eqn:Hroot.
    + split; [intros H; inversion H|].
      intros [<- (r' & Hr' & Hn)]. congruence.
    + rewrite list_elem_of_singleton. split.
      * intros ->. eauto.
      * by intros [-> _].
  - split; [intros H; inversion H|].
    intros [<- (r & Hr' & _)]. congruence.
Qed.

Lemma value_targets_spec (f : ifc_file) (v w : value) :
  w ∈ value_targets subtype f v ↔
  mentions v w ∧ ∃ r, as_entity f w = Some r ∧ is_root r = false.
Proof.
  unfold value_targets, mentions. destruct (as_entity f v) as [r|] eqn:Hr.
  - assert (∀ items, v ≠ VList items) as Hv by (intros items ->; done).
    destruct (is_a subtype r "IfcRoot") eqn:Hroot.
    + split; [intros H; inversion H|].
      intros [[<-|(items & -> & _)] (r' & Hr' & Hn)]; [congruence|].
      by destruct (Hv items).
    + rewrite list_elem_of_singleton. split.
      * intros ->. split; [by left | eauto].
      * intros [[<-|(items & -> & _)] _]; [done|]. by destruct (Hv items).
  - destruct v as [| | | | |items];
      try (split; [intros H; inversion H|];
           intros [[<-|(? & ? & _)] (r & Hr' & _)]; [congruence | done]).
    rewrite list_elem_of_In, in_flat_map. split.
    + intros (item & Hin & Hj). apply list_elem_of_In, item_targets_spec in Hj as [-> Hr'].
      split; [|done]. right. eexists; split; [done|]. by apply list_elem_of_In.
    + intros [[<-|(items' & [= <-] & Hin)] Hr']; [destruct Hr' as (? & ? & _); congruence|].
      exists w. split; [by apply list_elem_of_In|].
      apply list_elem_of_In, item_targets_spec. done.
Qed.

(** A typed value holds no entity instance. *)
Lemma successors_typed (f : ifc_file) (t : string) (w : plain) :
  successors subtype f (typed_instance t w) = [].
Proof. by destruct w. Qed.

(** ** The reference graph the traversal walks *)

Lemma successors_target (f : ifc_file) (e : entity_instance) (w : value) :
  w ∈ successors subtype f e → ∃ r, as_entity f w = Some r ∧ is_root r = false.
Proof.
  unfold successors. intros Hw.
  destruct (get_info e) as [info|]; [|inversion Hw].
  apply list_elem_of_In, in_flat_map in Hw as (v & _ & Hw).
  by apply list_elem_of_In, value_targets_spec in Hw as [_ ?].
Qed.

Lemma dep_target (f : ifc_file) (i j : N) :
  dep subtype f i j → non_root_id subtype f j.
Proof.
  intros (e & w & _ & Hw & Hj).
  apply successors_target in Hw as (r & Hr & Hroot).
  apply obj_of_Some in Hj as (r' & Hr' & <-).
  exists w, r. split; [done|]. split; [congruence | done].
Qed.

Lemma non_root_id_cases (f : ifc_file) (j : N) :
  non_root_id subtype f j →
  (∃ r, by_id f j = Some r ∧ is_root r = false) ∨ j = 0.
Proof.
  intros (v & r & Hr & <- & Hroot).
  apply as_entity_Some in Hr as [[_ Hr]|(t & w & _ & ->)]; [left; eauto | by right].
Qed.

Lemma successors_dep (f : ifc_file) (e r : entity_instance) (w : value) :
  by_id f (eid e) = Some e → w ∈ successors subtype f e → as_entity f w = Some r →
  dep subtype f (eid e) (eid r).
Proof.
  intros He Hw Hr. exists e, w. split; [done|]. split; [done|].
  apply obj_of_Some. eauto.
Qed.

(** The entity on which a call descends is an instance of the file. *)
Lemma descends_from_file (f : ifc_file) (v w : value) (e : entity_instance) :
  as_entity f v = Some e → w ∈ successors subtype f e → by_id f (eid e) = Some e.
Proof.
  intros He Hw. apply as_entity_Some in He as [[_ ?]|(t & p & _ & ->)]; [done|].
  rewrite successors_typed in Hw. inversion Hw.
Qed.


(** ** A call that the recursion limit does not cut short *)




Lemma for_each_grows {A} (body : A → gset N → option (gset N)) (xs : list A)
    (s s' : gset N) :
  (∀ x s s', body x s = Some s' → s ⊆ s') →
  for_each body xs s = Some s' → s ⊆ s'.
Proof.
  intros Hbody. revert s. induction xs as [|x xs IH]; intros s; simpl.
  - by intros [= <-].
  - destruct (body x s) as [s1|] eqn:Hx; [|done]. intros Hrest.
    etrans; [by eapply Hbody | by apply IH].
Qed.

Lemma collect_grows (n : nat) (f : ifc_file) (v : value) (V V' : gset N) :
  collect n f v V = Some V' → V ⊆ V'.
Proof.
  revert v V V'. induction n as [|n IH]; intros v V V'; [done|].
  rewrite collect_unfold. destruct (as_entity f v) as [e|]; [|by intros [= <-]].
  destruct (decide _); [by intros [= <-]|].
  intros Hloop%(for_each_grows _ _ _ _ (IH)). set_solver.
Qed.

(** A call that returns has visited the entity it was called on. *)
Lemma collect_visits (n : nat) (f : ifc_file) (v : value) (V V' : gset N)
    (e : entity_instance) :
  collect n f v V = Some V' → as_entity f v = Some e → eid e ∈ V'.
Proof.
  destruct n as [|n]; [done|]. rewrite collect_unfold. intros H He.
  rewrite He in H. destruct (decide _); [by injection H as <-|].
  apply (for_each_grows _ _ _ _ (collect_grows n f)) in H. set_solver.
Qed.

(** ** Termination: the fuel that suffices *)

Local Open Scope nat_scope.

Lemma size_ids (f : ifc_file) : size (ids f) ≤ length f.
Proof.
  unfold ids. induction f as [|e f IH]; simpl; [done|].
  rewrite size_union_alt, size_singleton.
  assert (size (list_to_set (map eid f) ∖ {[eid e]} : gset N)
          ≤ size (list_to_set (map eid f) : gset N)).
  { apply subseteq_size. set_solver. }
  lia.
Qed.

Lemma for_each_is_Some {A S} (body : A → S → option S) (I : S → Prop) (xs : list A) (s : S) :
  (∀ x s, I s → ∃ s', body x s = Some s' ∧ I s') →
  I s → ∃ s', for_each body xs s = Some s' ∧ I s'.
Proof.
  intros Hbody. revert s. induction xs as [|x xs IH]; intros s Hs; simpl; [eauto|].
  destruct (Hbody x s Hs) as (s' & -> & Hs'). by apply IH.
Qed.

Lemma collect_fuel (n : nat) (f : ifc_file) (entity : value) (V : gset N) :
  size (ids f ∖ V) < n → ∃ V', collect n f entity V = Some V' ∧ V ⊆ V'.
Proof.
  revert entity V. induction n as [|n IH]; intros entity V Hn; [lia|].
  rewrite collect_unfold.
  destruct (as_entity f entity) as [e|] eqn:He; [|eauto].
  destruct (decide (eid e ∈ V)) as [Hin|Hnin]; [eauto|].
  apply as_entity_Some in He as [[_ He]|(t & w & _ & ->)].
  2:{ rewrite successors_typed. simpl. eexists. split; [done|]. set_solver. }
  assert (eid e ∈ ids f) as Hids.
  { apply elem_of_list_to_set, by_id_is_Some. by rewrite He. }
  assert (size (ids f ∖ ({[eid e]} ∪ V)) < n) as Hlt.
  { assert (size (ids f ∖ ({[eid e]} ∪ V)) < size (ids f ∖ V)); [|lia].
    apply subset_size. apply strict_spec_alt.
    split; [set_solver|]. intros Heq. set_solver. }
  destruct (for_each_is_Some (collect n f)
              (λ W, {[eid e]} ∪ V ⊆ W) (successors subtype f e) ({[eid e]} ∪ V))
    as (V' & -> & HV'); [|done|].
  - intros w W HW. destruct (IH w W) as (W' & -> & HW').
    + assert (size (ids f ∖ W) ≤ size (ids f ∖ ({[eid e]} ∪ V))); [|lia].
      apply subseteq_size. set_solver.
    + eexists; split; [done|]. set_solver.
  - eexists; split; [done|]. set_solver.
Qed.

(** Every call returns once the fuel exceeds the number of instances. *)
Lemma collect_fuel_enough (n : nat) (f : ifc_file) (entity : value) (V : gset N) :
  length f < n → ∃ V', collect n f entity V = Some V' ∧ V ⊆ V'.
Proof.
  intros Hn. apply collect_fuel.
  assert (size (ids f ∖ V) ≤ size (ids f)) by (apply subseteq_size; set_solver).
  pose proof (size_ids f). lia.
Qed.

Local Close Scope nat_scope.

(** ** The call under the recursion limit *)

Lemma loop_until_app {A} (body : A → gset N → progress) (xs ys : list A)
    (s : gset N) :
  loop_until body (xs ++ ys) s =
  match loop_until body xs s with
  | Completed s' => loop_until body ys s'
  | Interrupted s' => Interrupted s'
  end.
Proof.
  revert s. induction xs as [|x xs IH]; intros s; simpl; [done|].
  destruct (body x s); [apply IH | done].
Qed.

Lemma loop_until_flat_map {A B} (body : A → gset N → progress)
    (inner : B → gset N → progress) (g : A → list B) (xs : list A) (s : gset N) :
  (∀ x s, body x s = loop_until inner (g x) s) →
  loop_until body xs s = loop_until inner (flat_map g xs) s.
Proof.
  intros Hbody. revert s. induction xs as [|x xs IH]; intros s; simpl; [done|].
  rewrite loop_until_app, Hbody. destruct (loop_until inner (g x) s); [apply IH | done].
Qed.

Lemma visit_item_limited_targets (f : ifc_file)
    (recurse : value → gset N → exn (gset N)) (item : value) (visited : gset N) :
  visit_item_limited subtype f recurse item visited
  = loop_until (recursive_call recurse) (item_targets subtype f item) visited.
Proof.
  unfold visit_item_limited, item_targets.
  destruct (as_entity f item) as [r|] eqn:Hr; [|done].
  destruct (is_a subtype r "IfcRoot"); simpl; [done|].
  by destruct (recursive_call _ _ _).
Qed.

Lemma visit_value_limited_targets (f : ifc_file)
    (recurse : value → gset N → exn (gset N)) (v : value) (visited : gset N) :
  visit_value_limited subtype f recurse v visited
  = loop_until (recursive_call recurse) (value_targets subtype f v) visited.
Proof.
  unfold visit_value_limited, value_targets.
  destruct (as_entity f v) as [r|] eqn:Hr.
  - destruct (is_a subtype r "IfcRoot"); simpl; [done|].
    by destruct (recursive_call _ _ _).
  - destruct v; try done.
    apply loop_until_flat_map. intros. apply visit_item_limited_targets.
Qed.

(** One level of the recursion under the limit. *)
Lemma collect_limited_unfold (n : nat) (f : ifc_file) (entity : value)
    (visited : gset N) :
  limited (S n) f entity visited =
  match as_entity f entity with
  | None => Ok visited
  | Some e =>
      if decide (eid e ∈ visited) then Ok visited
      else Ok (visited_of
                 (loop_until (recursive_call (limited n f)) (successors subtype f e)
                             ({[eid e]} ∪ visited)))
  end.
Proof.
  simpl. destruct (as_entity f entity) as [e|]; [|done].
  destruct (decide _); [done|].
  unfold successors. destruct (get_info e) as [info|]; [|done].
  f_equal. f_equal. apply loop_until_flat_map. intros. apply visit_value_limited_targets.
Qed.

(** A call that is allowed to start returns. *)
Lemma collect_limited_returns (n : nat) (f : ifc_file) (entity : value)
    (visited : gset N) :
  ∃ visited', limited (S n) f entity visited = Ok visited'.
Proof.
  rewrite collect_limited_unfold. destruct (as_entity f entity); [|eauto].
  destruct (decide _); eauto.
Qed.


Lemma recursive_call_sound (f : ifc_file) (recurse : value → gset N → exn (gset N))
    (w : value) (W : gset N) :
  (∀ W', recurse w W = Ok W' → call_sound subtype f w W W') →
  call_sound subtype f w W (visited_of (recursive_call recurse w W)).
Proof.
  intros Hcall. unfold recursive_call. destruct (recurse w W) as [W'|]; simpl.
  - by apply Hcall.
  - split; done.
Qed.

Lemma loop_until_sound (f : ifc_file) (body : value → gset N → progress)
    (ws : list value) (W : gset N) :
  (∀ w W, call_sound subtype f w W (visited_of (body w W))) →
  W ⊆ visited_of (loop_until body ws W)
  ∧ ∀ x, x ∈ visited_of (loop_until body ws W) → x ∉ W →
      ∃ w r, w ∈ ws ∧ as_entity f w = Some r ∧ rtc (dep subtype f) (eid r) x.
Proof.
  intros Hbody. revert W. induction ws as [|w ws IH]; intros W; simpl.
  - split; done.
  - destruct (Hbody w W) as [Hsub1 Hnew1].
    destruct (body w W) as [W1|W1]; simpl in *.
    + destruct (IH W1) as [Hsub2 Hnew2]. split; [by etrans|].
      intros x Hx HxW. destruct (decide (x ∈ W1)) as [Hx1|Hx1].
      * destruct (Hnew1 x Hx1 HxW) as (r & Hr & Hrtc).
        exists w, r. split; [by left | done].
      * destruct (Hnew2 x Hx Hx1) as (w' & r & Hw' & Hr & Hrtc).
        exists w', r. split; [by right | done].
    + split; [done|]. intros x Hx HxW.
      destruct (Hnew1 x Hx HxW) as (r & Hr & Hrtc).
      exists w, r. split; [by left | done].
Qed.

(** Whatever the limit, a call adds only what the entity reaches. *)
Lemma collect_limited_sound (n : nat) (f : ifc_file) (v : value) (V V' : gset N) :
  limited n f v V = Ok V' → call_sound subtype f v V V'.
Proof.
  revert v V V'. induction n as [|n IH]; intros v V V'; [done|].
  rewrite collect_limited_unfold. unfold call_sound.
  destruct (as_entity f v) as [e|] eqn:He.
  2:{ intros [= <-]. split; done. }
  destruct (decide (eid e ∈ V)) as [Hin|Hnin].
  { intros [= <-]. split; done. }
  intros [= <-].
  destruct (loop_until_sound f (recursive_call (limited n f))
              (successors subtype f e) ({[eid e]} ∪ V)) as [Hsub Hnew].
  { intros w W. apply recursive_call_sound. intros W'. apply IH. }
  split; [set_solver|].
  intros x Hx HxV. exists e. split; [done|].
  destruct (decide (x = eid e)) as [->|Hne]; [apply rtc_refl|].
  destruct (Hnew x Hx) as (w & r & Hw & Hr & Hrtc); [set_solver|].
  apply (rtc_l _ _ (eid r)); [|done]. apply (successors_dep f e r w); [|done..].
  by apply (descends_from_file f v w).
Qed.

(** A call that returns has visited the entity it was called on. *)
Lemma collect_limited_visits (n : nat) (f : ifc_file) (v : value) (V V' : gset N)
    (e : entity_instance) :
  limited n f v V = Ok V' → as_entity f v = Some e → eid e ∈ V'.
Proof.
  destruct n as [|n]; [done|]. rewrite collect_limited_unfold. intros H He.
  rewrite He in H. destruct (decide _); [by injection H as <-|].
  injection H as <-.
  destruct (loop_until_sound f (recursive_call (limited n f))
              (successors subtype f e) ({[eid e]} ∪ V)) as [Hsub _]; [|set_solver].
  intros w W. apply recursive_call_sound. intros W'. apply collect_limited_sound.
Qed.

(** ** The loop over the seeds *)


Lemma collect_seed_limited (f : ifc_file) (s : N) (W W1 : gset N) :
  collect_seed subtype f s W = Ok W1 →
  is_Some (by_id f s) ∧ limited (S nesting) f (VRef s) W = Ok W1.
Proof.
  unfold collect_seed. destruct (by_id f s) as [e|] eqn:He;
    cbn [of_option exn_bind]; [|done].
  destruct (by_id_Some _ _ _ He) as [Hid _]. rewrite Hid. done.
Qed.

(** Whatever the limit, a seed adds itself and only what it reaches. *)
Lemma collect_seed_sound (f : ifc_file) (s : N) (W W1 : gset N) :
  collect_seed subtype f s W = Ok W1 →
  is_Some (by_id f s) ∧ s ∈ W1 ∧ W ⊆ W1
  ∧ ∀ x, x ∈ W1 → x ∈ W ∨ rtc (dep subtype f) s x.
Proof.
  intros [[e He] Hs]%collect_seed_limited. split; [done|].
  destruct (by_id_Some _ _ _ He) as [Hid _].
  pose proof (collect_limited_visits _ _ _ _ _ e Hs He) as Hin.
  apply collect_limited_sound in Hs as [Hsub Hnew].
  split; [by rewrite <- Hid|]. split; [done|].
  intros x Hx. destruct (decide (x ∈ W)) as [?|HxW]; [by left | right].
  destruct (Hnew x Hx HxW) as (r & Hr & Hrtc). simpl in Hr.
  rewrite He in Hr. injection Hr as <-. by rewrite <- Hid.
Qed.

Lemma seeds_loop_sound (f : ifc_file) (l : list N) (W W' : gset N) :
  for_each_exn (collect_seed subtype f) l W = Ok W' →
  (∀ s, s ∈ l → is_Some (by_id f s) ∧ s ∈ W')
  ∧ W ⊆ W'
  ∧ ∀ x, x ∈ W' → x ∈ W ∨ ∃ s, s ∈ l ∧ rtc (dep subtype f) s x.
Proof.
  revert W. induction l as [|s l IH]; intros W; simpl.
  - intros [= <-]. split; [intros s Hs; inversion Hs|]. split; [done | auto].
  - destruct (collect_seed subtype f s W) as [W1|] eqn:Hs; simpl; [|done].
    intros Hrest. apply collect_seed_sound in Hs as (Hsome & Hin & Hsub & Hnew).
    apply IH in Hrest as (Hall & Hsub' & Hnew').
    split. { intros s' [->|Hs']%elem_of_cons; auto. }
    split; [by etrans|]. intros x Hx.
    destruct (Hnew' x Hx) as [Hx1|(s' & Hs' & Hrtc)].
    + destruct (Hnew x Hx1) as [?|?]; [by left | right].
      exists s. split; [by left | done].
    + right. exists s'. split; [by right | done].
Qed.

(** Whatever the limit: the seeds are in [non_root_deps], and whatever is in
    it is reached from a seed. *)
Lemma non_root_deps_sound (f : ifc_file) (seeds W : gset N) :
  non_root_deps subtype f seeds = Ok W →
  seeds ⊆ W
  ∧ (∀ s, s ∈ seeds → is_Some (by_id f s))
  ∧ ∀ x, x ∈ W → ∃ s, s ∈ seeds ∧ rtc (dep subtype f) s x.
Proof.
  intros (Hall & _ & Hnew)%seeds_loop_sound. split; [|split].
  - intros s Hs. by apply Hall, elem_of_elements.
  - intros s Hs. by apply Hall, elem_of_elements.
  - intros x Hx. destruct (Hnew x Hx) as [?|(s & Hs%elem_of_elements & ?)];
      [set_solver | eauto].
Qed.

Lemma non_root_deps_seeds (f : ifc_file) (seeds W : gset N) :
  non_root_deps subtype f seeds = Ok W → seeds ⊆ W.
Proof. by intros [? _]%non_root_deps_sound. Qed.

(** Whatever the traversal adds beyond the seeds is not root-typed. *)
Lemma non_root_deps_boundary (f : ifc_file) (seeds W : gset N) (x : N) :
  non_root_deps subtype f seeds = Ok W → x ∈ W →
  x ∈ seeds ∨ non_root_id subtype f x.
Proof.
  intros (_ & _ & Hnew)%non_root_deps_sound Hx.
  destruct (Hnew x Hx) as (s & Hs & Hrtc).
  apply rtc_inv_r in Hrtc as [->|(y & _ & Hdep)]; [by left | right].
  by eapply dep_target.
Qed.

Lemma non_root_deps_resolved (f : ifc_file) (seeds W : gset N) (x : N) :
  non_root_deps subtype f seeds = Ok W → x ∈ W → is_Some (by_id f x) ∨ x = 0.
Proof.
  intros H Hx. destruct (non_root_deps_boundary _ _ _ _ H Hx) as [Hs|Hn].
  - left. apply non_root_deps_sound in H as (_ & Hall & _). by apply Hall.
  - apply non_root_id_cases in Hn as [(r & -> & _)|?]; [by left | by right].
Qed.

Lemma seeds_loop_Raised (f : ifc_file) (l : list N) (W : gset N) :
  for_each_exn (collect_seed subtype f) l W = Raised ↔ ∃ s, s ∈ l ∧ by_id f s = None.
Proof.
  revert W. induction l as [|s l IH]; intros W; simpl.
  - split; [done|]. intros (s & Hs & _). inversion Hs.
  - unfold collect_seed at 1. destruct (by_id f s) as [e|] eqn:He;
      cbn [of_option exn_bind].
    + destruct (collect_limited_returns nesting f (VRef (eid e)) W) as [W1 ->].
      cbn [exn_bind]. rewrite IH. split; intros (s' & Hs' & Hn); exists s'.
      * split; [by right | done].
      * apply elem_of_cons in Hs' as [->|?]; [congruence | done].
    + split; [|done]. intros _. exists s. split; [by left | done].
Qed.

Lemma non_root_deps_Ok (f : ifc_file) (seeds : gset N) :
  (∀ s, s ∈ seeds → is_Some (by_id f s)) → ∃ W, non_root_deps subtype f seeds = Ok W.
Proof.
  intros Hall. destruct (non_root_deps subtype f seeds) as [W|] eqn:H; [eauto|].
  apply seeds_loop_Raised in H as (s & Hs & Hn).
  apply elem_of_elements, Hall in Hs as [? ?]. congruence.
Qed.

(** *** Files that the recursion limit does not cut short *)

Section Shallow.

Variable f : ifc_file.

(** The file has no instance [#0], the id of the typed values, and no more
    instances than calls may nest. *)
Hypothesis no_zero : by_id f 0 = None.
Hypothesis shallow : (length f ≤ nesting)%nat.





End Shallow.

(** ** Attribute visitation order *)












End Closure.

Section Planner.

Variable subtype : string → string → bool.

(** ** The explicit roots *)

Lemma add_ids_spec (xs : list obj) (s s' : gset N) :
  add_ids xs s = Ok s' → ∀ x, x ∈ s' ↔ x ∈ s ∨ Some x ∈ xs.
Proof.
  unfold add_ids. revert s. induction xs as [|o xs IH]; intros s; simpl.
  - intros [= <-] x. split; [by left|]. intros [?|H]; [done | inversion H].
  - destruct o as [i|]; simpl; [|done]. intros H x.
    rewrite (IH _ H), elem_of_union, elem_of_singleton, elem_of_cons.
    split; [intros [[->|?]|?] | intros [?|[[= ->]|?]]]; auto.
Qed.

Lemma add_element_spec (maps : relationship_maps) (o : obj) (s s' : gset N) :
  add_element maps o s = Ok s' →
  ∃ i, o = Some i ∧ ∀ x, x ∈ s' ↔ x ∈ s ∨ contributes maps i x.
Proof.
  unfold add_element, contributes, associated. destruct o as [i|]; simpl; [|done].
  intros H. exists i. split; [done|]. intros x.
  destruct (element_to_type maps !! i) as [[t|]|] eqn:Ht; simpl in H; try done;
  destruct (element_to_materials maps !! i) as [ms|] eqn:Hm; simpl in H;
  try (destruct (add_ids ms _) as [s1|] eqn:Hs1; simpl in H; [|done];
       pose proof (add_ids_spec _ _ _ Hs1) as Hs1');
  destruct (element_to_psets maps !! i) as [ps|] eqn:Hp;
  try (pose proof (add_ids_spec _ _ _ H) as H'; rewrite H'; clear H');
  try (injection H as <-);
  rewrite ?Hs1', ?elem_of_union, ?elem_of_singleton;
  naive_solver.
Qed.

Lemma add_elements_spec (maps : relationship_maps) (l : list obj) (s s' : gset N) :
  for_each_exn (add_element maps) l s = Ok s' →
  (∀ o, o ∈ l → is_Some o)
  ∧ ∀ x, x ∈ s' ↔ x ∈ s ∨ ∃ i, Some i ∈ l ∧ contributes maps i x.
Proof.
  revert s. induction l as [|o l IH]; intros s; simpl.
  - intros [= <-]. split; [intros o H; inversion H|].
    intros x. split; [by left|]. intros [?|(i & H & _)]; [done | inversion H].
  - destruct (add_element maps o s) as [s1|] eqn:Ho; simpl; [|done].
    intros Hrest. apply add_element_spec in Ho as (i & -> & Hi).
    apply IH in Hrest as [Hall Hmem]. split.
    + intros o [->|?]%elem_of_cons; [done | auto].
    + intros x. rewrite Hmem, Hi. setoid_rewrite elem_of_cons. naive_solver.
Qed.

Lemma elem_of_add_opt (e : option entity_instance) (s : gset N) (x : N) :
  x ∈ add_opt e s ↔ (∃ a, e = Some a ∧ x = eid a) ∨ x ∈ s.
Proof.
  destruct e as [a|]; simpl.
  - rewrite elem_of_union, elem_of_singleton. naive_solver.
  - naive_solver.
Qed.

(** The explicit roots of a storey, member by member. *)
Lemma entities_to_copy_spec (maps : relationship_maps)
    (project site building : option entity_instance) (storey : entity_instance)
    (roots : gset N) :
  entities_to_copy maps project site building storey = Ok roots →
  (∀ o, o ∈ members maps storey → is_Some o)
  ∧ ∀ x, x ∈ roots ↔
      x ∈ ancestor_chain project site building
      ∨ x = eid storey
      ∨ ∃ i, Some i ∈ members maps storey ∧ contributes maps i x.
Proof.
  unfold entities_to_copy. intros H. apply add_elements_spec in H as [Hall Hmem].
  split.
  - intros o Ho. apply Hall. by apply elem_of_elements.
  - intros x. rewrite Hmem. unfold ancestor_chain.
    rewrite elem_of_union, elem_of_singleton, !elem_of_add_opt.
    setoid_rewrite elem_of_elements. set_solver.
Qed.

(** ** Sorting and copying *)

Lemma sorted_spec (s : gset N) :
  StronglySorted N.lt (sorted s) ∧ ∀ i, i ∈ sorted s ↔ i ∈ s.
Proof.
  unfold sorted. split.
  - assert (NoDup (merge_sort N.le (elements s))) as Hnd.
    { rewrite merge_sort_Permutation. apply NoDup_elements. }
    pose proof (StronglySorted_merge_sort N.le (elements s)) as Hs.
    induction Hs as [|i l Hs IH Hall]; [constructor|].
    apply NoDup_cons in Hnd as [Hi Hnd]. constructor; [by apply IH|].
    rewrite Forall_forall in *. intros j Hj.
    assert (i ≠ j) by (intros ->; by apply Hi). specialize (Hall j Hj). lia.
  - intros i. by rewrite merge_sort_Permutation, elem_of_elements.
Qed.

Lemma copy_entities_acc (add_raises : entity_instance → bool) (verbose : bool)
    (f : ifc_file) (ids : list N) (new_file : list entity_instance)
    (log : list message) :
  copy_entities add_raises verbose f ids new_file log
  = (new_file ++ omap (by_id f) (filter (λ i, copy_fails add_raises f i = false) ids),
     log ++ warnings verbose (filter (λ i, copy_fails add_raises f i = true) ids)).
Proof.
  revert new_file log. induction ids as [|i ids IH]; intros new_file log; simpl.
  - unfold warnings. destruct verbose; by rewrite !app_nil_r.
  - rewrite !filter_cons.
    destruct (by_id f i) as [e|] eqn:He; [destruct (add_raises e) eqn:Hadd|].
    + assert (copy_fails add_raises f i = true) as Hi
        by (unfold copy_fails; by rewrite He).
      rewrite IH, Hi. rewrite decide_False by done. rewrite decide_True by done.
      f_equal. rewrite <- app_assoc. f_equal. by destruct verbose.
    + assert (copy_fails add_raises f i = false) as Hi
        by (unfold copy_fails; by rewrite He).
      rewrite IH, Hi. rewrite decide_True by done. rewrite decide_False by done.
      simpl. rewrite He. by rewrite <- app_assoc.
    + assert (copy_fails add_raises f i = true) as Hi
        by (unfold copy_fails; by rewrite He).
      rewrite IH, Hi. rewrite decide_False by done. rewrite decide_True by done.
      f_equal. rewrite <- app_assoc. f_equal. by destruct verbose.
Qed.



End Planner.


(** ** The loop over the storeys *)

Lemma storey_loop_spec
    (body : nat → entity_instance → list message * exn (list entity_instance))
    (idx : nat) (storeys : list entity_instance) :
  storey_loop body idx storeys
  = (imap (λ k, body (idx + k)%nat) (attempted storeys),
     forallb name_readable storeys).
Proof.
  revert idx. induction storeys as [|storey rest IH]; intros idx; simpl; [done|].
  destruct (name_readable storey); [|done]. rewrite IH. simpl.
  rewrite Nat.add_0_r. f_equal. f_equal. apply imap_ext. intros k x _. simpl.
  f_equal. lia.
Qed.

Lemma attempted_all (storeys : list entity_instance) :
  forallb name_readable storeys = true → attempted storeys = storeys.
Proof.
  induction storeys as [|storey rest IH]; simpl; [done|].
  destruct (name_readable storey); [|done]. intros H. by rewrite IH.
Qed.

Lemma attempted_prefix (storeys : list entity_instance) (k : nat)
    (storey : entity_instance) :
  attempted storeys !! k = Some storey → storeys !! k = Some storey.
Proof.
  revert k. induction storeys as [|x rest IH]; intros k; simpl; [done|].
  destruct (name_readable x); [|done]. destruct k as [|k]; [done|]. apply IH.
Qed.

Section Loop.

Variable subtype : string → string → bool.

Context {h : host}.

(** [split_ifc_ultrafast] with the loop over the storeys written out. *)
Lemma split_ifc_ultrafast_eq (env : environment) (verbose : bool) :
  split_ifc_ultrafast subtype env verbose =
  if negb (ifcopenshell_importable env) then Run (Ok false) [] [ImportFailed]
  else if exists_raises then Run Raised [] []
  else if negb (input_exists env) then Run (Ok false) [] [FileNotFound]
  else if mkdir_raises then Run Raised [] []
  else
    match open_file env with
    | None => Run (Ok false) [] [OpenFailed]
    | Some f =>
        match build_relationship_maps subtype f with
        | Raised => Run Raised [] []
        | Ok maps =>
            if forallb (λ _, false) (by_type subtype f "IfcBuildingStorey")
            then Run (Ok false) [] [NoStoreys]
            else if input_stat_raises then Run Raised [] []
            else
              match resolve_hierarchy subtype f
                      (head (by_type subtype f "IfcProject")) with
              | Raised => Run Raised [] []
              | Ok (site, building) =>
                  Run (if forallb name_readable
                            (by_type subtype f "IfcBuildingStorey")
                          && negb (verbose && summary_raises)
                       then Ok true else Raised)
                      (map snd
                         (imap (process_storey subtype env verbose f maps
                                  (head (by_type subtype f "IfcProject"))
                                  site building)
                               (attempted (by_type subtype f "IfcBuildingStorey"))))
                      (concat (map fst
                         (imap (process_storey subtype env verbose f maps
                                  (head (by_type subtype f "IfcProject"))
                                  site building)
                               (attempted (by_type subtype f "IfcBuildingStorey")))))
              end
        end
    end.
Proof.
  unfold split_ifc_ultrafast.
  destruct (negb (ifcopenshell_importable env)); [done|].
  destruct exists_raises; [done|].
  destruct (negb (input_exists env)); [done|].
  destruct mkdir_raises; [done|].
  destruct (open_file env) as [f|]; [|done].
  destruct (build_relationship_maps subtype f) as [maps|]; [|done].
  generalize (head (by_type subtype f "IfcProject")). intros project.
  destruct (by_type subtype f "IfcBuildingStorey") as [|storey storeys]; [done|].
  cbn [forallb andb].
  destruct input_stat_raises; [done|].
  destruct (resolve_hierarchy subtype f project) as [[site building]|]; [|done].
  by rewrite storey_loop_spec.
Qed.

(** A file without storeys, as the test of line 131 sees it. *)
Lemma no_storeys (l : list entity_instance) :
  forallb (λ _, false) l = true ↔ l = [].
Proof. by destruct l. Qed.

End Loop.
(** * The claims *)

Open Scope string_scope.

(** C1, evaluated on the code.  The claim has the closure computation
    return the reachable set without the seeds.  On the file that holds a
    single storey [#1], seeded with [{1}], the set [non_root_deps] returns is
    [{1}]: the seed itself is a member of it. *)
Theorem closure_contains_seed :
  non_root_deps ifc4 single_storey {[1]} = Ok {[1]}
  ∧ ({[1]} : gset N) ∖ {[1]} = ∅.
Proof. split; by vm_compute. Qed.

(** C2, evaluated on the code.  The claim has every reference to a
    non-root entity recursed into.  The control points [#2] to [#5] of the
    surface [#1] are non-root and are referenced from a list inside a list;
    the traversal started on [#1] visits [#1] alone. *)
Theorem nested_reference_not_followed :
  getattr (Entity 1 "IfcBSplineSurface"
             (Some [("UDegree", VInt 1);
                    ("ControlPointsList", VList [refs [2; 3]; refs [4; 5]])]))
          "ControlPointsList"
    = Some (VList [VList [VRef 2; VRef 3]; VList [VRef 4; VRef 5]])
  ∧ ((λ r, is_a ifc4 r "IfcRoot") <$> by_id spline 2) = Some false
  ∧ collect_dependencies ifc4 6 spline (VRef 1) ∅ = Some {[1]}.
Proof. repeat split; by vm_compute. Qed.

(** C3.  When the planner returns the explicit roots of a storey, they hold
    the resolved ancestors, the storey, and for every member element the
    element itself, its type when the type map has one, each of its
    materials and each of its property sets. *)
Theorem explicit_roots_complete (maps : relationship_maps)
    (project site building : option entity_instance) (storey : entity_instance)
    (roots : gset N) :
  entities_to_copy maps project site building storey = Ok roots →
  ancestor_chain project site building ⊆ roots
  ∧ eid storey ∈ roots
  ∧ ∀ e, e ∈ members maps storey →
      ∃ i, e = Some i
        ∧ i ∈ roots
        ∧ (∀ t, element_to_type maps !! i = Some (Some t) → t ∈ roots)
        ∧ (∀ ms m, element_to_materials maps !! i = Some ms → Some m ∈ ms → m ∈ roots)
        ∧ (∀ ps p, element_to_psets maps !! i = Some ps → Some p ∈ ps → p ∈ roots).
Proof.
  intros H. apply entities_to_copy_spec in H as [Hall Hmem].
  split; [intros x Hx; apply Hmem; by left|].
  split; [apply Hmem; right; by left|].
  intros e He. destruct (Hall e He) as [i ->]. exists i. split; [done|].
  assert (∀ x, contributes maps i x → x ∈ roots) as Hi.
  { intros x Hx. apply Hmem. right; right. by exists i. }
  unfold contributes, associated in Hi. repeat split.
  - apply Hi. by left.
  - intros t Ht. apply Hi. right. by left.
  - intros ms m Hms Hm. apply Hi. right. right. left. eauto.
  - intros ps q Hps Hq. apply Hi. right. right. right. eauto.
Qed.

Lemma explicit_roots_complete_witness :
  entities_to_copy scenario_a_maps scenario_a_project scenario_a_site
    scenario_a_building storey_1 = Ok {[1; 2; 3; 4; 10; 11; 20]}
  ∧ 20 ∈ ({[1; 2; 3; 4; 10; 11; 20]} : gset N).
Proof.
  assert (entities_to_copy scenario_a_maps scenario_a_project scenario_a_site
            scenario_a_building storey_1 = Ok {[1; 2; 3; 4; 10; 11; 20]}) as H
    by (by vm_compute).
  split; [exact H|].
  destruct (explicit_roots_complete _ _ _ _ _ _ H) as (_ & _ & Hm).
  destruct (Hm (Some 10)) as (i & Hi & _ & _ & Hmat & _).
  { apply (bool_decide_unpack _). by vm_compute. }
  injection Hi as <-. apply (Hmat [Some 20]); [by vm_compute | by left].
Defined.

(** C4, evaluated on the code.  The claim has the first aggregation
    relation decide the ancestor.  The file has a storey, so the run goes
    past line 133; relation [#10] gives the project the site [#2] and the
    later relation [#11] gives it the site [#3]; the resolved site is [#3],
    and [#3], not [#2], is copied for the storey. *)
Theorem last_aggregation_wins :
  by_type ifc4 two_sites_storey "IfcBuildingStorey"
    = [ Entity 4 "IfcBuildingStorey" (Some [("Name", VStr "L1")]) ]
  ∧ by_type ifc4 two_sites_storey "IfcRelAggregates"
    = [ Entity 10 "IfcRelAggregates"
          (Some [("RelatingObject", VRef 1); ("RelatedObjects", refs [2])]);
        Entity 11 "IfcRelAggregates"
          (Some [("RelatingObject", VRef 1); ("RelatedObjects", refs [3])]) ]
  ∧ resolve_hierarchy ifc4 two_sites_storey
      (head (by_type ifc4 two_sites_storey "IfcProject"))
    = Ok (Some (Entity 3 "IfcSite" (Some [("Name", VStr "B")])), None)
  ∧ split_ifc_ultrafast ifc4 env_two_sites true
    = Run (Ok true)
          [Ok [ Entity 1 "IfcProject" (Some [("Name", VStr "P")]);
                Entity 3 "IfcSite" (Some [("Name", VStr "B")]);
                Entity 4 "IfcBuildingStorey" (Some [("Name", VStr "L1")]) ]]
          [].
Proof. repeat split; by vm_compute. Qed.


Section ExitCode.

Context {h : host}.


End ExitCode.

(** C6 as stated fails: in quiet mode every copy of [scenario_a] fails, the
    partitions complete with empty files, and nothing is printed; the result
    of a partition holds no count of written or failed entities. *)
Lemma copy_failure_not_logged :
  split_ifc_ultrafast ifc4 env_no_add false = Run (Ok true) [Ok []; Ok []] [].
Proof. by vm_compute. Qed.

(** C6, amended.  The copy loop attempts every id in turn: the instances
    whose copy succeeds are appended to the new file in the order of the
    ids, each failing id is skipped without stopping the loop, and a warning
    is printed for it only in verbose mode.  The loop yields the new file
    and no counts. *)
Theorem copy_entities_spec (add_raises : entity_instance → bool) (verbose : bool)
    (f : ifc_file) (ids : list N) :
  copy_entities add_raises verbose f ids [] []
  = (omap (by_id f) (filter (λ i, copy_fails add_raises f i = false) ids),
     if verbose
     then map CouldNotCopy (filter (λ i, copy_fails add_raises f i = true) ids)
     else []).
Proof. by rewrite copy_entities_acc. Qed.


Section Insertion.

Context {h : host}.


End Insertion.





Section OrderIndependence.

Context {h : host}.


End OrderIndependence.


(** C9 as stated fails: the member sets of the two storeys of [scenario_a]
    are disjoint, the material [#20] is in both output sets, and it is not
    in the ancestor chain. *)
Lemma shared_material_in_both :
  members scenario_a_maps storey_1 ## members scenario_a_maps storey_2
  ∧ entities_to_copy scenario_a_maps scenario_a_project scenario_a_site
      scenario_a_building storey_1 = Ok {[1; 2; 3; 4; 10; 11; 20]}
  ∧ non_root_deps ifc4 scenario_a {[1; 2; 3; 4; 10; 11; 20]}
    = Ok {[1; 2; 3; 4; 10; 11; 20; 40; 41]}
  ∧ entities_to_copy scenario_a_maps scenario_a_project scenario_a_site
      scenario_a_building storey_2 = Ok {[1; 2; 3; 5; 12; 20]}
  ∧ non_root_deps ifc4 scenario_a {[1; 2; 3; 5; 12; 20]}
    = Ok {[1; 2; 3; 5; 12; 20]}
  ∧ 20 ∈ (({[1; 2; 3; 4; 10; 11; 20]} ∪ {[1; 2; 3; 4; 10; 11; 20; 40; 41]})
          ∩ ({[1; 2; 3; 5; 12; 20]} ∪ {[1; 2; 3; 5; 12; 20]}) : gset N)
  ∧ 20 ∉ ancestor_chain scenario_a_project scenario_a_site scenario_a_building.
Proof.
  split; [apply (bool_decide_unpack _); by vm_compute|].
  do 4 (split; [by vm_compute|]).
  split; apply (bool_decide_unpack _); by vm_compute.
Qed.

Section Sharing.

Context {h : host}.

(** C9, amended.  For two storeys with disjoint member sets, an entity that
    is in both output sets is in the shared ancestor chain; or each storey
    brings it in, as the storey itself or as the type, a material or a
    property set of one of its members, and at most one of the two as a
    member; or it is the id of an entity instance that is not root-typed
    and that an explicit root of each storey reaches. *)
Theorem shared_entities (subtype : string → string → bool) (f : ifc_file)
    (maps : relationship_maps) (project site building : option entity_instance)
    (storey1 storey2 : entity_instance) (roots1 deps1 roots2 deps2 : gset N)
    (x : N) :
  members maps storey1 ## members maps storey2 →
  entities_to_copy maps project site building storey1 = Ok roots1 →
  non_root_deps subtype f roots1 = Ok deps1 →
  entities_to_copy maps project site building storey2 = Ok roots2 →
  non_root_deps subtype f roots2 = Ok deps2 →
  x ∈ (roots1 ∪ deps1) ∩ (roots2 ∪ deps2) →
  x ∈ ancestor_chain project site building
  ∨ (attached maps storey1 x ∧ attached maps storey2 x)
  ∨ (attached maps storey1 x ∧ Some x ∈ members maps storey2)
  ∨ (Some x ∈ members maps storey1 ∧ attached maps storey2 x)
  ∨ (non_root_id subtype f x
     ∧ (∃ s, s ∈ roots1 ∧ rtc (dep subtype f) s x)
     ∧ (∃ s, s ∈ roots2 ∧ rtc (dep subtype f) s x)).
Proof.
  intros Hdisj Hr1 Hd1 Hr2 Hd2 [Hx1 Hx2]%elem_of_intersection.
  pose proof (non_root_deps_sound _ _ _ _ Hd1) as (Hsub1 & _ & Hreach1).
  pose proof (non_root_deps_sound _ _ _ _ Hd2) as (Hsub2 & _ & Hreach2).
  assert (x ∈ deps1) as Hy1 by set_solver.
  assert (x ∈ deps2) as Hy2 by set_solver.
  destruct (non_root_deps_boundary _ _ _ _ _ Hd1 Hy1) as [Hx1'|Hn];
    [|repeat right; auto].
  destruct (non_root_deps_boundary _ _ _ _ _ Hd2 Hy2) as [Hx2'|Hn];
    [|repeat right; auto].
  apply entities_to_copy_spec in Hr1 as [_ Hm1].
  apply entities_to_copy_spec in Hr2 as [_ Hm2].
  apply Hm1 in Hx1' as [?|Hx1']; [by left|].
  apply Hm2 in Hx2' as [?|Hx2']; [by left|].
  assert (attached maps storey1 x ∨ Some x ∈ members maps storey1) as [Ha1|Hb1].
  { destruct Hx1' as [->|(i & Hi & [->|Hassoc])]; [left; by left | by right|].
    left. right. eauto. }
  - assert (attached maps storey2 x ∨ Some x ∈ members maps storey2) as [Ha2|Hb2].
    { destruct Hx2' as [->|(i & Hi & [->|Hassoc])]; [left; by left | by right|].
      left. right. eauto. }
    + right; left. done.
    + right; right; left. done.
  - assert (attached maps storey2 x ∨ Some x ∈ members maps storey2) as [Ha2|Hb2].
    { destruct Hx2' as [->|(i & Hi & [->|Hassoc])]; [left; by left | by right|].
      left. right. eauto. }
    + right; right; right; left. done.
    + exfalso. by apply (elem_of_disjoint (members maps storey1)
                           (members maps storey2)) with (Some x).
Qed.

End Sharing.

Lemma shared_entities_witness :
  members scenario_a_maps storey_1 ## members scenario_a_maps storey_2
  ∧ (20 ∈ ancestor_chain scenario_a_project scenario_a_site scenario_a_building
     ∨ (attached scenario_a_maps storey_1 20 ∧ attached scenario_a_maps storey_2 20)
     ∨ (attached scenario_a_maps storey_1 20
        ∧ Some 20 ∈ members scenario_a_maps storey_2)
     ∨ (Some 20 ∈ members scenario_a_maps storey_1
        ∧ attached scenario_a_maps storey_2 20)
     ∨ (non_root_id ifc4 scenario_a 20
        ∧ (∃ s, s ∈ ({[1; 2; 3; 4; 10; 11; 20]} : gset N)
                ∧ rtc (dep ifc4 scenario_a) s 20)
        ∧ (∃ s, s ∈ ({[1; 2; 3; 5; 12; 20]} : gset N)
                ∧ rtc (dep ifc4 scenario_a) s 20))).
Proof.
  assert (members scenario_a_maps storey_1 ## members scenario_a_maps storey_2)
    as Hdisj by (apply (bool_decide_unpack _); by vm_compute).
  split; [exact Hdisj|].
  apply (shared_entities ifc4 scenario_a scenario_a_maps scenario_a_project
           scenario_a_site scenario_a_building storey_1 storey_2
           {[1; 2; 3; 4; 10; 11; 20]} {[1; 2; 3; 4; 10; 11; 20; 40; 41]}
           {[1; 2; 3; 5; 12; 20]} {[1; 2; 3; 5; 12; 20]} 20 Hdisj).
  - by vm_compute.
  - by vm_compute.
  - by vm_compute.
  - by vm_compute.
  - apply (bool_decide_unpack _). by vm_compute.
Defined.

(** C10.  With fuel above the number of instances, a call of the closure
    engine on any object returns a visited set, never an exception; the set
    extends the one it was given and holds the entity it was called on.  When
    reading the attributes of a fresh entity raises, the exception is
    swallowed and the call adds that entity alone. *)
Theorem collect_never_raises (subtype : string → string → bool) (fuel : nat)
    (f : ifc_file) (entity : value) (visited : gset N) :
  (length f < fuel)%nat →
  ∃ visited',
    collect_dependencies subtype fuel f entity visited = Some visited'
    ∧ visited ⊆ visited'
    ∧ ∀ e, as_entity f entity = Some e →
        eid e ∈ visited'
        ∧ (eid e ∉ visited → get_info e = None → visited' = {[eid e]} ∪ visited).
Proof.
  intros Hfuel.
  destruct (collect_fuel_enough subtype fuel f entity visited) as (V' & HV' & Hsub);
    [done|].
  exists V'. split; [done|]. split; [done|]. intros e He.
  split.
  - by apply (collect_visits subtype fuel f entity visited V' e).
  - intros Hnin Hinfo. destruct fuel as [|n]; [lia|].
    simpl in HV'. rewrite He, Hinfo in HV'.
    rewrite decide_False in HV' by done. by injection HV' as <-.
Qed.

Lemma collect_never_raises_witness :
  (length unreadable < 3)%nat
  ∧ ∃ visited',
      collect_dependencies ifc4 3 unreadable (VRef 2) {[1]} = Some visited'
      ∧ {[1]} ⊆ visited'
      ∧ ∀ e, as_entity unreadable (VRef 2) = Some e →
          eid e ∈ visited'
          ∧ (eid e ∉ ({[1]} : gset N) → get_info e = None →
             visited' = {[eid e]} ∪ {[1]}).
Proof.
  split; [simpl; lia|].
  apply (collect_never_raises ifc4 3 unreadable (VRef 2) {[1]}). simpl. lia.
Defined.

(** * Further properties of the closure engine *)

Section ClosureFacts.

Context {h : host}.



(** X3.  Root entities are traversal boundaries: an id of the closure set that
    is not a seed is the id of an entity instance whose type is not a
    subtype of [IfcRoot], an instance of the file or a typed value. *)
Theorem closure_root_boundary (subtype : string → string → bool) (f : ifc_file)
    (seeds W : gset N) (x : N) :
  non_root_deps subtype f seeds = Ok W → x ∈ W → x ∉ seeds →
  ∃ v r, as_entity f v = Some r ∧ eid r = x ∧ is_a subtype r "IfcRoot" = false.
Proof.
  intros H Hx Hseed.
  by destruct (non_root_deps_boundary _ _ _ _ _ H Hx) as [?|?].
Qed.

(** X4.  The loop over the seeds raises exactly when [by_id] fails on a seed;
    nothing inside [collect_dependencies] can make it raise. *)
Theorem closure_raises_iff_missing_seed (subtype : string → string → bool)
    (f : ifc_file) (seeds : gset N) :
  non_root_deps subtype f seeds = Raised ↔ ∃ s, s ∈ seeds ∧ by_id f s = None.
Proof.
  unfold non_root_deps. rewrite seeds_loop_Raised.
  by setoid_rewrite elem_of_elements.
Qed.

(** X5.  Every id of the closure set is the id of an instance of the file or
    0, the id of the typed values: references that resolve to nothing are
    never added. *)
Theorem closure_within_file (subtype : string → string → bool) (f : ifc_file)
    (seeds W : gset N) :
  non_root_deps subtype f seeds = Ok W → W ⊆ ids f ∪ {[0]}.
Proof.
  intros H x Hx.
  destruct (non_root_deps_resolved _ _ _ _ _ H Hx) as [Hsome| ->]; [|set_solver].
  apply elem_of_union_l, elem_of_list_to_set, by_id_is_Some. done.
Qed.


(** X25.  Whatever the recursion limit cuts short, the closure set holds every
    seed, and every id in it is reached from a seed through references to
    non-root entities. *)
Theorem closure_sound (subtype : string → string → bool) (f : ifc_file)
    (seeds W : gset N) :
  non_root_deps subtype f seeds = Ok W →
  seeds ⊆ W ∧ ∀ x, x ∈ W → ∃ s, s ∈ seeds ∧ rtc (dep subtype f) s x.
Proof. intros (? & _ & ?)%non_root_deps_sound. done. Qed.

End ClosureFacts.



Lemma closure_root_boundary_witness :
  non_root_deps ifc4 typed_property {[16]} = Ok {[0; 16; 17]}
  ∧ ∃ v r, as_entity typed_property v = Some r ∧ eid r = 0
           ∧ is_a ifc4 r "IfcRoot" = false.
Proof.
  assert (non_root_deps ifc4 typed_property {[16]} = Ok {[0; 16; 17]}) as H
    by (by vm_compute).
  split; [exact H|].
  apply (closure_root_boundary ifc4 typed_property {[16]} {[0; 16; 17]} 0 H).
  - apply (bool_decide_unpack _). by vm_compute.
  - apply (bool_decide_unpack _). by vm_compute.
Defined.

Lemma closure_within_file_witness :
  non_root_deps ifc4 typed_property {[16]} = Ok {[0; 16; 17]}
  ∧ ({[0; 16; 17]} : gset N) ⊆ ids typed_property ∪ {[0]}.
Proof.
  assert (non_root_deps ifc4 typed_property {[16]} = Ok {[0; 16; 17]}) as H
    by (by vm_compute).
  split; [exact H|]. exact (closure_within_file ifc4 typed_property _ _ H).
Defined.


Lemma closure_sound_witness :
  non_root_deps ifc4 scenario_a {[4; 10]} = Ok {[4; 10; 40; 41]}
  ∧ {[4; 10]} ⊆ ({[4; 10; 40; 41]} : gset N)
  ∧ ∀ x, x ∈ ({[4; 10; 40; 41]} : gset N) →
         ∃ s, s ∈ ({[4; 10]} : gset N) ∧ rtc (dep ifc4 scenario_a) s x.
Proof.
  assert (non_root_deps ifc4 scenario_a {[4; 10]} = Ok {[4; 10; 40; 41]}) as H
    by (by vm_compute).
  split; [exact H|]. exact (closure_sound ifc4 scenario_a _ _ H).
Defined.

(** * Further properties of the planner and the materializer *)

Lemma for_each_exn_Raised {A S} (body : A → S → exn S) (P : A → Prop)
    (xs : list A) (s : S) :
  (∀ x s, body x s = Raised ↔ P x) →
  for_each_exn body xs s = Raised ↔ ∃ x, x ∈ xs ∧ P x.
Proof.
  intros Hbody. revert s. induction xs as [|x xs IH]; intros s; simpl.
  - split; [done|]. intros (x & Hx & _). inversion Hx.
  - destruct (body x s) as [s1|] eqn:Hx; simpl.
    + rewrite IH. split; intros (y & Hy & HP); exists y.
      * split; [by right | done].
      * apply elem_of_cons in Hy as [->|?]; [|done].
        apply Hbody with (s := s) in HP. congruence.
    + split; [|done]. intros _. exists x. split; [by left|]. by apply (Hbody x s).
Qed.

Lemma add_ids_Raised (xs : list obj) (s : gset N) :
  add_ids xs s = Raised ↔ None ∈ xs.
Proof.
  unfold add_ids. rewrite (for_each_exn_Raised _ (λ o, o = None)).
  - split; [by intros (? & ? & ->) | eauto].
  - intros [i|] ?; simpl; split; done.
Qed.

Lemma add_element_Raised (maps : relationship_maps) (o : obj) (s : gset N) :
  add_element maps o s = Raised ↔ unusable maps o.
Proof.
  unfold add_element, unusable. destruct o as [i|]; simpl; [|split; [by left | done]].
  destruct (element_to_type maps !! i) as [[t|]|] eqn:Ht; simpl.
  3:{ destruct (element_to_materials maps !! i) as [ms|] eqn:Hm; simpl.
      2:{ destruct (element_to_psets maps !! i) as [ps|] eqn:Hp.
          - rewrite add_ids_Raised. naive_solver.
          - naive_solver. }
      destruct (add_ids ms _) as [s1|] eqn:Hs1; simpl.
      - assert (None ∉ ms) by (intros ?%(add_ids_Raised ms ({[i]} ∪ s)); congruence).
        destruct (element_to_psets maps !! i) as [ps|] eqn:Hp.
        + rewrite add_ids_Raised. naive_solver.
        + naive_solver.
      - apply add_ids_Raised in Hs1. naive_solver. }
  2:{ naive_solver. }
  destruct (element_to_materials maps !! i) as [ms|] eqn:Hm; simpl.
  2:{ destruct (element_to_psets maps !! i) as [ps|] eqn:Hp.
      - rewrite add_ids_Raised. naive_solver.
      - naive_solver. }
  destruct (add_ids ms _) as [s1|] eqn:Hs1; simpl.
  - assert (None ∉ ms) by (intros ?%(add_ids_Raised ms ({[t]} ∪ ({[i]} ∪ s))); congruence).
    destruct (element_to_psets maps !! i) as [ps|] eqn:Hp.
    + rewrite add_ids_Raised. naive_solver.
    + naive_solver.
  - apply add_ids_Raised in Hs1. naive_solver.
Qed.

(** X8.  The explicit roots hold nothing but the resolved ancestors, the storey
    and what its member elements contribute: an id is in the set exactly
    when it is one of these. *)
Theorem explicit_roots_exact (maps : relationship_maps)
    (project site building : option entity_instance) (storey : entity_instance)
    (roots : gset N) :
  entities_to_copy maps project site building storey = Ok roots →
  ∀ x, x ∈ roots ↔
    x ∈ ancestor_chain project site building
    ∨ x = eid storey
    ∨ ∃ i, Some i ∈ members maps storey ∧ contributes maps i x.
Proof. intros H. by apply entities_to_copy_spec in H as [_ ?]. Qed.

Lemma explicit_roots_exact_witness :
  entities_to_copy scenario_a_maps scenario_a_project scenario_a_site
    scenario_a_building storey_2 = Ok {[1; 2; 3; 5; 12; 20]}
  ∧ (10 ∈ ({[1; 2; 3; 5; 12; 20]} : gset N) ↔
       10 ∈ ancestor_chain scenario_a_project scenario_a_site scenario_a_building
       ∨ 10 = eid storey_2
       ∨ ∃ i, Some i ∈ members scenario_a_maps storey_2
              ∧ contributes scenario_a_maps i 10).
Proof.
  assert (entities_to_copy scenario_a_maps scenario_a_project scenario_a_site
            scenario_a_building storey_2 = Ok {[1; 2; 3; 5; 12; 20]}) as H
    by (by vm_compute).
  split; [exact H|]. exact (explicit_roots_exact _ _ _ _ _ _ H 10).
Defined.

(** X9.  The planner raises exactly when the storey has a member that is not an
    entity instance, or a member whose recorded type, material or property
    set is not one; otherwise it returns the explicit roots. *)
Theorem planner_raises_iff (maps : relationship_maps)
    (project site building : option entity_instance) (storey : entity_instance) :
  entities_to_copy maps project site building storey = Raised ↔
  ∃ o, o ∈ members maps storey ∧ unusable maps o.
Proof.
  unfold entities_to_copy.
  rewrite (for_each_exn_Raised _ (unusable maps)).
  - by setoid_rewrite elem_of_elements.
  - intros. apply add_element_Raised.
Qed.

Section Materializer.

Context {h : host}.

(** X10.  The instances on which [new_file.add] is called and returns for a
    storey are exactly the instances of the source file whose id is in the
    closure set and for which [new_file.add] does not raise; the explicit
    roots are all in the closure set.  What the new file holds besides them
    is [store_of]. *)
Theorem written_instances_exact (subtype : string → string → bool)
    (env : environment) (verbose : bool) (f : ifc_file)
    (maps : relationship_maps) (project site building : option entity_instance)
    (idx : nat) (storey : entity_instance)
    (log : list message) (new_file : list entity_instance) :
  process_storey subtype env verbose f maps project site building idx storey
    = (log, Ok new_file) →
  ∃ roots deps,
    entities_to_copy maps project site building storey = Ok roots
    ∧ non_root_deps subtype f roots = Ok deps
    ∧ roots ⊆ deps
    ∧ ∀ e, e ∈ new_file ↔
        by_id f (eid e) = Some e ∧ eid e ∈ deps ∧ add_raises env idx e = false.
Proof.
  unfold process_storey.
  destruct (entities_to_copy _ _ _ _ _) as [roots|]; [|done].
  destruct (non_root_deps subtype f roots) as [deps|] eqn:Hdeps; [|done].
  rewrite copy_entities_acc.
  destruct (write_raises env idx); [done|]. intros [= _ <-].
  exists roots, deps. split; [done|]. split; [done|].
  pose proof (non_root_deps_seeds _ _ _ _ Hdeps) as Hsub. split; [done|].
  intros e. simpl. rewrite list_elem_of_omap. split.
  - intros (i & [Hi Hin]%list_elem_of_filter & He).
    destruct (by_id_Some _ _ _ He) as [<- _].
    unfold copy_fails in Hi. rewrite He in Hi.
    apply (sorted_spec (roots ∪ deps)) in Hin. split; [done|]. split; [set_solver | done].
  - intros (He & Hin & Hadd). exists (eid e). split; [|done].
    apply list_elem_of_filter. split.
    + unfold copy_fails. by rewrite He.
    + apply (sorted_spec (roots ∪ deps)). set_solver.
Qed.

(** X11.  A storey without members is not an error: when the storey and the
    resolved ancestors are instances of the file and the write does not
    raise, its partition is written. *)
Theorem empty_storey_still_written (subtype : string → string → bool)
    (env : environment) (verbose : bool) (f : ifc_file)
    (maps : relationship_maps) (project site building : option entity_instance)
    (idx : nat) (storey : entity_instance) :
  members maps storey = ∅ →
  (∀ x, x ∈ {[eid storey]} ∪ ancestor_chain project site building →
        is_Some (by_id f x)) →
  write_raises env idx = false →
  ∃ log new_file,
    process_storey subtype env verbose f maps project site building idx storey
    = (log, Ok new_file).
Proof.
  intros Hempty Hres Hwrite. unfold process_storey, entities_to_copy.
  rewrite Hempty, elements_empty. simpl.
  destruct (non_root_deps_Ok subtype f
              ({[eid storey]} ∪ ancestor_chain project site building) Hres)
    as [deps Hdeps].
  unfold ancestor_chain in Hdeps. rewrite Hdeps, copy_entities_acc, Hwrite.
  eauto.
Qed.

End Materializer.

Lemma written_instances_exact_witness :
  process_storey ifc4 env_ok true scenario_a scenario_a_maps scenario_a_project
    scenario_a_site scenario_a_building 1 storey_2
  = ([], Ok (omap (by_id scenario_a) [1; 2; 3; 5; 12; 20]))
  ∧ ∃ roots deps,
      entities_to_copy scenario_a_maps scenario_a_project scenario_a_site
        scenario_a_building storey_2 = Ok roots
      ∧ non_root_deps ifc4 scenario_a roots = Ok deps
      ∧ roots ⊆ deps
      ∧ ∀ e, e ∈ omap (by_id scenario_a) [1; 2; 3; 5; 12; 20] ↔
          by_id scenario_a (eid e) = Some e ∧ eid e ∈ deps
          ∧ add_raises env_ok 1 e = false.
Proof.
  assert (process_storey ifc4 env_ok true scenario_a scenario_a_maps
            scenario_a_project scenario_a_site scenario_a_building 1 storey_2
          = ([], Ok (omap (by_id scenario_a) [1; 2; 3; 5; 12; 20]))) as H
    by (by vm_compute).
  split; [exact H|].
  exact (written_instances_exact ifc4 _ _ _ _ _ _ _ _ _ _ _ H).
Defined.

Lemma empty_storey_still_written_witness :
  members (Maps ∅ ∅ ∅ ∅) (Entity 1 "IfcBuildingStorey" (Some [("Name", VStr "L1")])) = ∅
  ∧ ∃ log new_file,
      process_storey ifc4 env_ok true single_storey (Maps ∅ ∅ ∅ ∅) None None None 0
        (Entity 1 "IfcBuildingStorey" (Some [("Name", VStr "L1")]))
      = (log, Ok new_file).
Proof.
  split; [reflexivity|].
  apply (empty_storey_still_written ifc4 env_ok true single_storey (Maps ∅ ∅ ∅ ∅)
           None None None 0 (Entity 1 "IfcBuildingStorey" (Some [("Name", VStr "L1")]))).
  - reflexivity.
  - intros x Hx. assert (x = 1) as -> by set_solver. by eexists.
  - reflexivity.
Defined.

(** * Further properties of the orchestrator *)

Section Orchestrator.

Variable subtype : string → string → bool.

Context {h : host}.

Lemma lookup_map_imap {A B C} (p : B → C) (g : nat → A → B) (l : list A) (k : nat) :
  map p (imap g l) !! k = (λ x, p (g k x)) <$> l !! k.
Proof.
  revert g k. induction l as [|x l IH]; intros g k; [done|].
  destruct k as [|k]; [done|]. simpl. apply (IH (g ∘ S)).
Qed.

Lemma elem_of_imap_inv {A B} (g : nat → A → B) (l : list A) (y : B) :
  y ∈ imap g l ↔ ∃ k x, l !! k = Some x ∧ y = g k x.
Proof.
  rewrite list_elem_of_lookup. setoid_rewrite list_lookup_imap. split.
  - intros (k & Hk). destruct (l !! k) as [x|] eqn:Hx; [|done].
    injection Hk as <-. eauto.
  - intros (k & x & Hx & ->). exists k. by rewrite Hx.
Qed.


(** What a completed run is made of. *)
Lemma split_completed (env : environment) (verbose : bool) :
  returned (split_ifc_ultrafast subtype env verbose) = Ok true →
  ∃ f maps site building,
    open_file env = Some f
    ∧ by_type subtype f "IfcBuildingStorey" ≠ []
    ∧ split_ifc_ultrafast subtype env verbose
      = Run (Ok true)
          (map snd (imap (process_storey subtype env verbose f maps
                            (head (by_type subtype f "IfcProject")) site building)
                         (by_type subtype f "IfcBuildingStorey")))
          (concat (map fst (imap (process_storey subtype env verbose f maps
                            (head (by_type subtype f "IfcProject")) site building)
                         (by_type subtype f "IfcBuildingStorey")))).
Proof.
  rewrite split_ifc_ultrafast_eq.
  destruct (ifcopenshell_importable env); simpl; [|done].
  destruct exists_raises; simpl; [done|].
  destruct (input_exists env); simpl; [|done].
  destruct mkdir_raises; simpl; [done|].
  destruct (open_file env) as [f|]; [|done].
  destruct (build_relationship_maps subtype f) as [maps|]; [|done].
  destruct (forallb (λ _, false) (by_type subtype f "IfcBuildingStorey")) eqn:Hst;
    [done|].
  destruct input_stat_raises; [done|].
  destruct (resolve_hierarchy subtype f _) as [[site building]|]; [|done].
  cbn [returned].
  destruct (forallb name_readable (by_type subtype f "IfcBuildingStorey"))
    eqn:Hnames; [|done].
  rewrite (attempted_all _ Hnames).
  destruct (negb (verbose && summary_raises)); [|done].
  intros _. exists f, maps, site, building. split; [done|]. split; [|done].
  intros Hnil%no_storeys. congruence.
Qed.

(** What every run is made of: no partition at all, or the partitions of
    the storeys whose [try] block was entered. *)
Lemma split_attempted (env : environment) (verbose : bool) :
  (partitions (split_ifc_ultrafast subtype env verbose) = []
   ∧ returned (split_ifc_ultrafast subtype env verbose) ≠ Ok true
   ∧ ∀ m, m ∈ printed (split_ifc_ultrafast subtype env verbose) →
          m = ImportFailed ∨ m = FileNotFound ∨ m = OpenFailed ∨ m = NoStoreys)
  ∨ ∃ f maps site building,
      open_file env = Some f
      ∧ ifcopenshell_importable env = true
      ∧ input_exists env = true
      ∧ partitions (split_ifc_ultrafast subtype env verbose)
        = map snd (imap (process_storey subtype env verbose f maps
                           (head (by_type subtype f "IfcProject")) site building)
                        (attempted (by_type subtype f "IfcBuildingStorey")))
      ∧ printed (split_ifc_ultrafast subtype env verbose)
        = concat (map fst (imap (process_storey subtype env verbose f maps
                           (head (by_type subtype f "IfcProject")) site building)
                        (attempted (by_type subtype f "IfcBuildingStorey"))))
      ∧ build_relationship_maps subtype f = Ok maps
      ∧ resolve_hierarchy subtype f (head (by_type subtype f "IfcProject"))
        = Ok (site, building)
      ∧ returned (split_ifc_ultrafast subtype env verbose) ≠ Ok false.
Proof.
  rewrite split_ifc_ultrafast_eq.
  destruct (ifcopenshell_importable env); simpl.
  2:{ left. split; [done|]. split; [done|]. intros m ->%list_elem_of_singleton. auto. }
  destruct exists_raises; simpl.
  { left. split; [done|]. split; [done|]. intros m Hm. inversion Hm. }
  destruct (input_exists env); simpl.
  2:{ left. split; [done|]. split; [done|]. intros m ->%list_elem_of_singleton. auto. }
  destruct mkdir_raises; simpl.
  { left. split; [done|]. split; [done|]. intros m Hm. inversion Hm. }
  destruct (open_file env) as [f|].
  2:{ left. split; [done|]. split; [done|]. intros m ->%list_elem_of_singleton. auto. }
  destruct (build_relationship_maps subtype f) as [maps|] eqn:Hmaps.
  2:{ left. split; [done|]. split; [done|]. intros m Hm. inversion Hm. }
  destruct (forallb (λ _, false) (by_type subtype f "IfcBuildingStorey")).
  { left. split; [done|]. split; [done|]. intros m ->%list_elem_of_singleton. auto. }
  destruct input_stat_raises.
  { left. split; [done|]. split; [done|]. intros m Hm. inversion Hm. }
  destruct (resolve_hierarchy subtype f _) as [[site building]|] eqn:Hh.
  2:{ left. split; [done|]. split; [done|]. intros m Hm. inversion Hm. }
  right. exists f, maps, site, building. cbn [returned partitions printed].
  do 7 (split; [done|]).
  by destruct (_ && _).
Qed.

(** The lines one storey prints: warnings of the copy loop, only in
    verbose mode, and one error line exactly when the partition failed. *)
Lemma process_storey_log (env : environment) (verbose : bool) (f : ifc_file)
    (maps : relationship_maps) (project site building : option entity_instance)
    (idx : nat) (storey : entity_instance) (m : message) :
  m ∈ fst (process_storey subtype env verbose f maps project site building idx storey)
  ↔ (m = PartitionError idx
     ∧ snd (process_storey subtype env verbose f maps project site building idx storey)
       = Raised)
    ∨ (verbose = true
       ∧ ∃ roots deps i,
           entities_to_copy maps project site building storey = Ok roots
           ∧ non_root_deps subtype f roots = Ok deps
           ∧ m = CouldNotCopy i
           ∧ i ∈ roots ∪ deps
           ∧ copy_fails (add_raises env idx) f i = true).
Proof.
  unfold process_storey.
  destruct (entities_to_copy _ _ _ _ _) as [roots|]; simpl.
  2:{ rewrite list_elem_of_singleton. split; [by left|].
      by intros [[? _]|(_ & ? & ? & ? & ? & _)]. }
  destruct (non_root_deps subtype f roots) as [deps|] eqn:Hdeps; simpl.
  2:{ rewrite list_elem_of_singleton. split; [by left|].
      intros [[? _]|(_ & ? & ? & ? & [= <-] & ? & _)]; [done | congruence]. }
  rewrite copy_entities_acc. simpl.
  assert (m ∈ warnings verbose
            (filter (λ i, copy_fails (add_raises env idx) f i = true)
                    (sorted (roots ∪ deps)))
          ↔ verbose = true ∧ ∃ i, m = CouldNotCopy i ∧ i ∈ roots ∪ deps
              ∧ copy_fails (add_raises env idx) f i = true) as Hw.
  { unfold warnings. destruct verbose.
    - rewrite list_elem_of_In, in_map_iff. split.
      + intros (i & <- & [Hi Hin]%list_elem_of_In%list_elem_of_filter).
        split; [done|]. exists i. split; [done|]. split; [|done].
        by apply (sorted_spec (roots ∪ deps)).
      + intros (_ & i & -> & Hin & Hi). exists i. split; [done|].
        apply list_elem_of_In, list_elem_of_filter. split; [done|].
        by apply (sorted_spec (roots ∪ deps)).
    - split; [intros H; inversion H | by intros [? _]]. }
  assert ((verbose = true ∧ ∃ i, m = CouldNotCopy i ∧ i ∈ roots ∪ deps
              ∧ copy_fails (add_raises env idx) f i = true)
          ↔ (verbose = true
             ∧ ∃ roots0 deps0 i,
                 Ok roots = Ok roots0
                 ∧ non_root_deps subtype f roots0 = Ok deps0
                 ∧ m = CouldNotCopy i
                 ∧ i ∈ roots0 ∪ deps0
                 ∧ copy_fails (add_raises env idx) f i = true)) as Hq.
  { split.
    - intros (Hv & i & Hm & Hin & Hi). split; [done|]. by exists roots, deps, i.
    - intros (Hv & r0 & d0 & i & [= <-] & Hd & Hm & Hin & Hi). split; [done|].
      rewrite Hdeps in Hd. injection Hd as <-. eauto. }
  rewrite <- Hq. clear Hq.
  destruct (write_raises env idx); simpl.
  - rewrite elem_of_app, list_elem_of_singleton, Hw. split.
    + intros [? | ->]; [by right | by left].
    + intros [[-> _]|?]; [by right | by left].
  - rewrite Hw. split; [by right|]. by intros [[_ ?]|?].
Qed.





(** X13.  Every fatal precondition aborts before anything is written: a run
    that returns [False] has entered the [try] block of no storey. *)
Theorem fatal_writes_nothing (env : environment) (verbose : bool) :
  returned (split_ifc_ultrafast subtype env verbose) = Ok false →
  partitions (split_ifc_ultrafast subtype env verbose) = []
  ∧ ∀ m, m ∈ printed (split_ifc_ultrafast subtype env verbose) →
         m = ImportFailed ∨ m = FileNotFound ∨ m = OpenFailed ∨ m = NoStoreys.
Proof.
  intros H.
  destruct (split_attempted env verbose)
    as [(Hp & _ & Hm)|(? & ? & ? & ? & _ & _ & _ & _ & _ & _ & _ & Hne)]; done.
Qed.

(** X14.  A run that completes has attempted exactly one partition per storey of
    the file, in the order of [by_type], and there is at least one. *)
Theorem one_partition_per_storey (env : environment) (verbose : bool) :
  returned (split_ifc_ultrafast subtype env verbose) = Ok true →
  ∃ f, open_file env = Some f
       ∧ length (partitions (split_ifc_ultrafast subtype env verbose))
         = length (by_type subtype f "IfcBuildingStorey")
       ∧ by_type subtype f "IfcBuildingStorey" ≠ [].
Proof.
  intros H. apply split_completed in H as (f & maps & site & building & Hf & Hst & ->).
  exists f. split; [done|]. split; [|done]. simpl.
  by rewrite length_map, length_imap.
Qed.


(** X16.  Every failed partition is reported, also in quiet mode: in a completed
    run the error line of storey number [k] is printed exactly when the
    partition of storey number [k] failed. *)
Theorem partition_error_reported (env : environment) (verbose : bool) (k : nat) :
  returned (split_ifc_ultrafast subtype env verbose) = Ok true →
  PartitionError k ∈ printed (split_ifc_ultrafast subtype env verbose)
  ↔ partitions (split_ifc_ultrafast subtype env verbose) !! k = Some Raised.
Proof.
  intros H. apply split_completed in H as (f & maps & site & building & _ & _ & ->).
  simpl. rewrite lookup_map_imap, list_elem_of_In, in_concat. split.
  - intros (log & Hlog & Hm). apply in_map_iff in Hlog as (res & <- & Hres).
    apply list_elem_of_In, elem_of_imap_inv in Hres as (i & x & Hx & ->).
    apply list_elem_of_In, process_storey_log in Hm as [[[= ->] Hr]|(_ & ? & ? & ? & _ & _ & ? & _)];
      [|done].
    rewrite Hx. simpl. by rewrite Hr.
  - destruct (by_type subtype f "IfcBuildingStorey" !! k) as [x|] eqn:Hx; [|done].
    simpl. intros [= Hr].
    exists (fst (process_storey subtype env verbose f maps
                   (head (by_type subtype f "IfcProject")) site building k x)).
    split.
    + apply in_map, list_elem_of_In, elem_of_imap_inv. eauto.
    + apply list_elem_of_In, process_storey_log. by left.
Qed.

(** X17.  In quiet mode no warning about a single entity is ever printed,
    whatever fails. *)
Theorem quiet_prints_no_warning (env : environment) :
  Forall (λ m, is_copy_warning m = false)
         (printed (split_ifc_ultrafast subtype env false)).
Proof.
  apply Forall_forall. intros m Hin.
  destruct (split_attempted env false)
    as [(_ & _ & Hm)|(f & maps & site & building & _ & _ & _ & _ & Heq & _)].
  - by destruct (Hm _ Hin) as [-> | [-> | [-> | ->]]].
  - rewrite Heq in Hin.
    apply list_elem_of_In, in_concat in Hin as (log & Hlog & Hm).
    apply in_map_iff in Hlog as (res & <- & Hres).
    apply list_elem_of_In, elem_of_imap_inv in Hres as (j & x & Hx & ->).
    by apply list_elem_of_In, process_storey_log in Hm as [[-> _] | [? _]].
Qed.

End Orchestrator.


Lemma fatal_writes_nothing_witness :
  returned (split_ifc_ultrafast ifc4 env_no_storey true) = Ok false
  ∧ partitions (split_ifc_ultrafast ifc4 env_no_storey true) = []
  ∧ ∀ m, m ∈ printed (split_ifc_ultrafast ifc4 env_no_storey true) →
         m = ImportFailed ∨ m = FileNotFound ∨ m = OpenFailed ∨ m = NoStoreys.
Proof.
  assert (returned (split_ifc_ultrafast ifc4 env_no_storey true) = Ok false) as H
    by (by vm_compute).
  split; [exact H|]. exact (fatal_writes_nothing ifc4 env_no_storey true H).
Defined.

Lemma one_partition_per_storey_witness :
  returned (split_ifc_ultrafast ifc4 env_ok true) = Ok true
  ∧ ∃ f, open_file env_ok = Some f
         ∧ length (partitions (split_ifc_ultrafast ifc4 env_ok true))
           = length (by_type ifc4 f "IfcBuildingStorey")
         ∧ by_type ifc4 f "IfcBuildingStorey" ≠ [].
Proof.
  assert (returned (split_ifc_ultrafast ifc4 env_ok true) = Ok true) as H
    by (by vm_compute).
  split; [exact H|]. exact (one_partition_per_storey ifc4 env_ok true H).
Defined.


Lemma partition_error_reported_witness :
  returned (split_ifc_ultrafast ifc4 env_first_write_fails false) = Ok true
  ∧ (PartitionError 0 ∈ printed (split_ifc_ultrafast ifc4 env_first_write_fails false)
     ↔ partitions (split_ifc_ultrafast ifc4 env_first_write_fails false) !! 0%nat
       = Some Raised).
Proof.
  assert (returned (split_ifc_ultrafast ifc4 env_first_write_fails false) = Ok true)
    as H by (by vm_compute).
  split; [exact H|].
  exact (partition_error_reported ifc4 env_first_write_fails false 0 H).
Defined.

(** * Properties of the relationship index *)

Section Index.

Variable subtype : string → string → bool.

(** What a loop that only accumulates has accumulated at its end. *)
Lemma for_each_exn_accum {A S} (body : A → S → exn S) (mem : S → Prop)
    (contrib : A → Prop) (xs : list A) (s s' : S) :
  for_each_exn body xs s = Ok s' →
  (∀ a s s', body a s = Ok s' → mem s' ↔ mem s ∨ contrib a) →
  mem s' ↔ mem s ∨ ∃ a, a ∈ xs ∧ contrib a.
Proof.
  intros H Hbody. revert s H. induction xs as [|a xs IH]; intros s; simpl.
  - intros [= <-]. split; [by left|]. intros [?|(a & Ha & _)]; [done | inversion Ha].
  - destruct (body a s) as [s1|] eqn:Ha; simpl; [|done].
    intros Hrest. rewrite (IH _ Hrest), (Hbody _ _ _ Ha).
    setoid_rewrite elem_of_cons. naive_solver.
Qed.

(** What a loop whose steps may overwrite still guarantees about every
    entry found at its end. *)
Lemma for_each_exn_sound {A S} (body : A → S → exn S) (mem : S → Prop)
    (contrib : A → Prop) (xs : list A) (s s' : S) :
  for_each_exn body xs s = Ok s' →
  (∀ a s s', body a s = Ok s' → mem s' → mem s ∨ contrib a) →
  mem s' → mem s ∨ ∃ a, a ∈ xs ∧ contrib a.
Proof.
  intros H Hbody. revert s H. induction xs as [|a xs IH]; intros s; simpl.
  - intros [= <-]. by left.
  - destruct (body a s) as [s1|] eqn:Ha; simpl; [|done].
    intros Hrest Hmem. destruct (IH _ Hrest Hmem) as [H1|(b & Hb & Hc)].
    + destruct (Hbody _ _ _ Ha H1) as [?|?]; [by left | right].
      exists a. split; [by left | done].
    + right. exists b. split; [by right | done].
Qed.

Lemma index_append_spec (f : ifc_file) (related relating : string)
    (rel : entity_instance) (d d' : gmap N (list obj)) (k : N) (x : obj) :
  index_append f related relating rel d = Ok d' →
  x ∈ default [] (d' !! k) ↔
  x ∈ default [] (d !! k) ∨ associates f related relating rel k x.
Proof.
  unfold index_append, associates.
  destruct (getattr rel related ≫= iterate) as [elements|]; simpl; [|done].
  intros H.
  rewrite (for_each_exn_accum _ (λ d, x ∈ default [] (d !! k))
             (λ element, obj_of f element = Some k
                         ∧ ∃ target, getattr rel relating = Some target
                                     ∧ x = obj_of f target) _ _ _ H).
  - split; (intros [?|Hr]; [by left | right]).
    + destruct Hr as (element & Hin & Hk & target & Ht & ->).
      exists elements, target. repeat split; eauto.
    + destruct Hr as (els & target & [= <-] & Ht & (element & Hin & Hk) & ->).
      exists element. repeat split; eauto.
  - clear H. intros element s s'.
    destruct (obj_of f element) as [k0|]; simpl; [|done].
    destruct (getattr rel relating) as [target|]; simpl; [|done].
    intros [= <-]. rewrite lookup_insert. case_decide as Hk.
    + subst k0. simpl. rewrite elem_of_app, list_elem_of_singleton.
      split; (intros [?|?]; [by left | right]).
      * split; [done|]. eauto.
      * by destruct H as (_ & ? & [= <-] & ->).
    + split; [by left|]. intros [?|([= ?] & _)]; done.
Qed.

Lemma index_assign_sound (f : ifc_file) (related relating : string)
    (rel : entity_instance) (d d' : gmap N obj) (k : N) (t : obj) :
  index_assign f related relating rel d = Ok d' →
  d' !! k = Some t → d !! k = Some t ∨ associates f related relating rel k t.
Proof.
  unfold index_assign, associates.
  destruct (getattr rel related ≫= iterate) as [elements|]; simpl; [|done].
  intros H Hk.
  destruct (for_each_exn_sound _ (λ d, d !! k = Some t)
              (λ element, obj_of f element = Some k
                          ∧ ∃ target, getattr rel relating = Some target
                                      ∧ t = obj_of f target) _ _ _ H)
    as [?|(element & Hin & Hel & target & Ht & ->)]; [|done|by left|].
  2:{ right. exists elements, target. repeat split; eauto. }
  clear. intros element s s'.
  destruct (getattr rel relating) as [target|]; simpl; [|done].
  destruct (obj_of f element) as [k0|]; simpl; [|done].
  intros [= <-]. rewrite lookup_insert. case_decide as Hk.
  - subst k0. intros [= <-]. right. eauto.
  - by left.
Qed.

Lemma index_assign_dom (f : ifc_file) (related relating : string)
    (rel : entity_instance) (d d' : gmap N obj) (k : N) :
  index_assign f related relating rel d = Ok d' →
  is_Some (d' !! k) ↔
  is_Some (d !! k) ∨ ∃ t, associates f related relating rel k t.
Proof.
  unfold index_assign, associates.
  destruct (getattr rel related ≫= iterate) as [elements|]; simpl; [|done].
  intros H.
  rewrite (for_each_exn_accum _ (λ d, is_Some (d !! k))
             (λ element, obj_of f element = Some k
                         ∧ is_Some (getattr rel relating)) _ _ _ H).
  - split; (intros [?|Hr]; [by left | right]).
    + destruct Hr as (element & Hin & Hk & target & Ht).
      exists (obj_of f target), elements, target. repeat split; eauto.
    + destruct Hr as (t & els & target & [= <-] & Ht & (element & Hin & Hk) & ->).
      exists element. repeat split; eauto.
  - clear H. intros element s s'.
    destruct (getattr rel relating) as [target|]; simpl; [|done].
    destruct (obj_of f element) as [k0|]; simpl; [|done].
    intros [= <-]. rewrite lookup_insert. case_decide as Hk.
    + subst k0. split; [intros _; right; eauto | eauto].
    + split; [by left|]. intros [?|([= ?] & _)]; done.
Qed.

Lemma index_update_spec (f : ifc_file) (key : N) (related : list value)
    (d : gmap N (gset obj)) (k : N) (x : obj) :
  x ∈ default ∅ (index_update f key related d !! k) ↔
  x ∈ default ∅ (d !! k) ∨ (k = key ∧ ∃ v, v ∈ related ∧ x = obj_of f v).
Proof.
  unfold index_update. rewrite lookup_insert. case_decide as Hk.
  - subst k. simpl. rewrite elem_of_union, elem_of_list_to_set, list_elem_of_fmap.
    naive_solver.
  - naive_solver.
Qed.

Lemma index_contained_spec (f : ifc_file) (rel : entity_instance)
    (d d' : gmap N (gset obj)) (k : N) (x : obj) :
  index_contained f rel d = Ok d' →
  x ∈ default ∅ (d' !! k) ↔ x ∈ default ∅ (d !! k) ∨ contains_in f rel k x.
Proof.
  unfold index_contained, contains_in.
  destruct (getattr rel "RelatingStructure") as [structure|]; simpl; [|done].
  destruct (obj_of f structure) as [key|] eqn:Hkey; simpl; [|done].
  destruct (getattr rel "RelatedElements" ≫= iterate) as [related|]; simpl; [|done].
  intros [= <-]. rewrite index_update_spec. split; (intros [?|Hr]; [by left | right]).
  - destruct Hr as (-> & v & Hv & ->). exists structure, related. repeat split; eauto.
  - destruct Hr as (? & ? & [= <-] & Hk & [= <-] & v & Hv & ->).
    rewrite Hkey in Hk. injection Hk as ->. eauto.
Qed.

Lemma index_aggregated_spec (f : ifc_file) (rel : entity_instance)
    (d d' : gmap N (gset obj)) (k : N) (x : obj) :
  index_aggregated subtype f rel d = Ok d' →
  x ∈ default ∅ (d' !! k) ↔ x ∈ default ∅ (d !! k) ∨ aggregates_in subtype f rel k x.
Proof.
  unfold index_aggregated, aggregates_in.
  destruct (getattr rel "RelatingObject") as [parent|]; simpl; [|done].
  destruct (as_entity f parent) as [p|] eqn:Hp; simpl; [|done].
  destruct (is_a subtype p "IfcBuildingStorey") eqn:Hst.
  - destruct (getattr rel "RelatedObjects" ≫= iterate) as [related|]; simpl; [|done].
    intros [= <-]. rewrite index_update_spec.
    split; (intros [?|Hr]; [by left | right]).
    + destruct Hr as (-> & v & Hv & ->). exists parent, p, related. repeat split; eauto.
    + destruct Hr as (? & p0 & ? & [= <-] & Hp0 & <- & _ & [= <-] & v & Hv & ->).
      rewrite Hp in Hp0. injection Hp0 as <-. eauto.
  - intros [= <-]. split; [by left|]. intros [?|Hr]; [done|].
    destruct Hr as (? & p0 & ? & [= <-] & Hp0 & _ & ? & _).
    rewrite Hp in Hp0. injection Hp0 as <-. congruence.
Qed.

(** What [build_relationship_maps] returns, loop by loop. *)
Lemma build_relationship_maps_Ok (f : ifc_file) (maps : relationship_maps) :
  build_relationship_maps subtype f = Ok maps →
  for_each_exn (index_assign f "RelatedObjects" "RelatingType")
    (by_type subtype f "IfcRelDefinesByType") ∅ = Ok (element_to_type maps)
  ∧ for_each_exn (index_append f "RelatedObjects" "RelatingMaterial")
      (by_type subtype f "IfcRelAssociatesMaterial") ∅
    = Ok (element_to_materials maps)
  ∧ for_each_exn (index_append f "RelatedObjects" "RelatingPropertyDefinition")
      (by_type subtype f "IfcRelDefinesByProperties") ∅
    = Ok (element_to_psets maps)
  ∧ ∃ contained,
      for_each_exn (index_contained f)
        (by_type subtype f "IfcRelContainedInSpatialStructure") ∅ = Ok contained
      ∧ for_each_exn (index_aggregated subtype f)
          (by_type subtype f "IfcRelAggregates") contained
        = Ok (storey_to_elements maps).
Proof.
  unfold build_relationship_maps.
  destruct (for_each_exn (index_assign _ _ _) _ _) as [types|]; simpl; [|done].
  destruct (for_each_exn (index_append _ _ "RelatingMaterial") _ _) as [ms|];
    simpl; [|done].
  destruct (for_each_exn (index_append _ _ "RelatingPropertyDefinition") _ _) as [ps|];
    simpl; [|done].
  destruct (for_each_exn (index_contained _) _ _) as [contained|]; simpl; [|done].
  destruct (for_each_exn (index_aggregated _ _) _ _) as [storeys|] eqn:Hs;
    simpl; [|done].
  intros [= <-]. simpl. eauto 10.
Qed.

(** X18.  The type map holds an entry for an element exactly when some
    [IfcRelDefinesByType] relation lists the element, and the entry is the
    [RelatingType] of one of the relations that list it. *)
Theorem type_index_sound (f : ifc_file) (maps : relationship_maps) (k : N) :
  build_relationship_maps subtype f = Ok maps →
  (is_Some (element_to_type maps !! k) ↔
     ∃ rel t, rel ∈ by_type subtype f "IfcRelDefinesByType"
              ∧ associates f "RelatedObjects" "RelatingType" rel k t)
  ∧ ∀ t, element_to_type maps !! k = Some t →
      ∃ rel, rel ∈ by_type subtype f "IfcRelDefinesByType"
             ∧ associates f "RelatedObjects" "RelatingType" rel k t.
Proof.
  intros H. apply build_relationship_maps_Ok in H as (Ht & _). split.
  - rewrite (for_each_exn_accum _ (λ d, is_Some (d !! k))
               (λ rel, ∃ t, associates f "RelatedObjects" "RelatingType" rel k t)
               _ _ _ Ht (λ a s s', index_assign_dom f _ _ a s s' k)).
    rewrite lookup_empty. split.
    + intros [[? ?]|(rel & Hin & t & Hr)]; [done|]. eauto.
    + intros (rel & t & Hin & Hr). right. eauto.
  - intros t Hk.
    destruct (for_each_exn_sound _ (λ d, d !! k = Some t)
                (λ rel, associates f "RelatedObjects" "RelatingType" rel k t)
                _ _ _ Ht (λ a s s', index_assign_sound f _ _ a s s' k t) Hk)
      as [Hempty|?]; [|done].
    by rewrite lookup_empty in Hempty.
Qed.

(** X19.  The materials (the property sets) recorded for an element are exactly
    the [RelatingMaterial] (the [RelatingPropertyDefinition]) of the
    relations that list the element. *)
Theorem association_index_exact (f : ifc_file) (maps : relationship_maps)
    (k : N) (x : obj) :
  build_relationship_maps subtype f = Ok maps →
  (x ∈ default [] (element_to_materials maps !! k) ↔
     ∃ rel, rel ∈ by_type subtype f "IfcRelAssociatesMaterial"
            ∧ associates f "RelatedObjects" "RelatingMaterial" rel k x)
  ∧ (x ∈ default [] (element_to_psets maps !! k) ↔
       ∃ rel, rel ∈ by_type subtype f "IfcRelDefinesByProperties"
              ∧ associates f "RelatedObjects" "RelatingPropertyDefinition" rel k x).
Proof.
  intros H. apply build_relationship_maps_Ok in H as (_ & Hm & Hp & _). split.
  - rewrite (for_each_exn_accum _ (λ d, x ∈ default [] (d !! k))
               (λ rel, associates f "RelatedObjects" "RelatingMaterial" rel k x)
               _ _ _ Hm (λ a s s', index_append_spec f _ _ a s s' k x)).
    rewrite lookup_empty. simpl. split; [intros [H|?]; [inversion H | done] | by right].
  - rewrite (for_each_exn_accum _ (λ d, x ∈ default [] (d !! k))
               (λ rel, associates f "RelatedObjects" "RelatingPropertyDefinition" rel k x)
               _ _ _ Hp (λ a s s', index_append_spec f _ _ a s s' k x)).
    rewrite lookup_empty. simpl. split; [intros [H|?]; [inversion H | done] | by right].
Qed.

(** X20.  The members recorded for a structure are exactly the related elements
    of the containment relations of that structure, together with the
    related objects of the aggregations whose parent is that structure and
    is a storey. *)
Theorem members_index_exact (f : ifc_file) (maps : relationship_maps)
    (key : N) (x : obj) :
  build_relationship_maps subtype f = Ok maps →
  x ∈ default ∅ (storey_to_elements maps !! key) ↔
  (∃ rel, rel ∈ by_type subtype f "IfcRelContainedInSpatialStructure"
          ∧ contains_in f rel key x)
  ∨ (∃ rel, rel ∈ by_type subtype f "IfcRelAggregates"
            ∧ aggregates_in subtype f rel key x).
Proof.
  intros H. apply build_relationship_maps_Ok in H as (_ & _ & _ & contained & Hc & Ha).
  rewrite (for_each_exn_accum _ (λ d, x ∈ default ∅ (d !! key))
             (λ rel, aggregates_in subtype f rel key x)
             _ _ _ Ha (λ a s s', index_aggregated_spec f a s s' key x)).
  rewrite (for_each_exn_accum _ (λ d, x ∈ default ∅ (d !! key))
             (λ rel, contains_in f rel key x)
             _ _ _ Hc (λ a s s', index_contained_spec f a s s' key x)).
  rewrite lookup_empty. simpl. split.
  - intros [[H|?]|?]; [set_solver | by left | by right].
  - intros [?|?]; [left; by right | by right].
Qed.

End Index.

Lemma scenario_a_maps_built : build_relationship_maps ifc4 scenario_a = Ok scenario_a_maps.
Proof. by vm_compute. Qed.

Lemma typed_wall_maps_built : build_relationship_maps ifc4 typed_wall = Ok typed_wall_maps.
Proof. by vm_compute. Qed.

Lemma type_index_sound_witness :
  build_relationship_maps ifc4 typed_wall = Ok typed_wall_maps
  ∧ ∀ t, element_to_type typed_wall_maps !! 10 = Some t →
      ∃ rel, rel ∈ by_type ifc4 typed_wall "IfcRelDefinesByType"
             ∧ associates typed_wall "RelatedObjects" "RelatingType" rel 10 t.
Proof.
  split; [exact typed_wall_maps_built|].
  exact (proj2 (type_index_sound ifc4 typed_wall typed_wall_maps 10
                  typed_wall_maps_built)).
Defined.

Lemma association_index_exact_witness :
  build_relationship_maps ifc4 scenario_a = Ok scenario_a_maps
  ∧ (Some 20 ∈ default [] (element_to_materials scenario_a_maps !! 12) ↔
       ∃ rel, rel ∈ by_type ifc4 scenario_a "IfcRelAssociatesMaterial"
              ∧ associates scenario_a "RelatedObjects" "RelatingMaterial" rel 12 (Some 20)).
Proof.
  split; [exact scenario_a_maps_built|].
  exact (proj1 (association_index_exact ifc4 scenario_a scenario_a_maps 12 (Some 20)
                  scenario_a_maps_built)).
Defined.

Lemma members_index_exact_witness :
  build_relationship_maps ifc4 scenario_a = Ok scenario_a_maps
  ∧ (Some 12 ∈ default ∅ (storey_to_elements scenario_a_maps !! 5) ↔
       (∃ rel, rel ∈ by_type ifc4 scenario_a "IfcRelContainedInSpatialStructure"
               ∧ contains_in scenario_a rel 5 (Some 12))
       ∨ (∃ rel, rel ∈ by_type ifc4 scenario_a "IfcRelAggregates"
                 ∧ aggregates_in ifc4 scenario_a rel 5 (Some 12))).
Proof.
  split; [exact scenario_a_maps_built|].
  exact (members_index_exact ifc4 scenario_a scenario_a_maps 5 (Some 12)
           scenario_a_maps_built).
Defined.

(** * Properties of the hierarchy resolver *)

Section Resolver.

Variable subtype : string → string → bool.

Lemma first_is_a_spec (f : ifc_file) (marker : string) (items : list value)
    (found r : option entity_instance) :
  first_is_a subtype f marker items found = Ok r →
  (r = found
   ∧ ∀ v e, v ∈ items → as_entity f v = Some e → is_a subtype e marker = false)
  ∨ ∃ e, r = Some e ∧ is_a subtype e marker = true
         ∧ ∃ v, v ∈ items ∧ as_entity f v = Some e.
Proof.
  induction items as [|o items IH]; simpl.
  - intros [= <-]. left. split; [done|]. intros v e Hv. inversion Hv.
  - destruct (as_entity f o) as [e|] eqn:He; [|done].
    destruct (is_a subtype e marker) eqn:Hm.
    + intros [= <-]. right. exists e. split; [done|]. split; [done|].
      exists o. split; [by left | done].
    + intros H. destruct (IH H) as [[-> Hnone]|(e' & -> & Hm' & v & Hv & He')].
      * left. split; [done|]. intros v e' [->|Hv]%elem_of_cons Hv'.
        -- congruence.
        -- by eapply Hnone.
      * right. exists e'. split; [done|]. split; [done|].
        exists v. split; [by right | done].
Qed.

Lemma scan_aggregate_spec (f : ifc_file) (parent : entity_instance)
    (marker : string) (rel : entity_instance) (found r : option entity_instance) :
  scan_aggregate subtype f parent marker rel found = Ok r →
  (r = found
   ∧ ∀ e, aggregates_entity f parent rel e → is_a subtype e marker = false)
  ∨ ∃ e, r = Some e ∧ is_a subtype e marker = true
         ∧ aggregates_entity f parent rel e.
Proof.
  unfold scan_aggregate, aggregates_entity.
  destruct (getattr rel "RelatingObject") as [relating|]; simpl; [|done].
  destruct (value_is f relating parent) eqn:Hv.
  - destruct (getattr rel "RelatedObjects" ≫= iterate) as [related|]; simpl; [|done].
    intros H. destruct (first_is_a_spec _ _ _ _ _ H)
      as [[-> Hnone]|(e & -> & Hm & v & Hin & He)].
    + left. split; [done|].
      intros e (? & ? & [= <-] & _ & [= <-] & v & Hin & He). by eapply Hnone.
    + right. exists e. split; [done|]. split; [done|].
      exists relating, related. repeat split; eauto.
  - intros [= <-]. left. split; [done|].
    intros e (? & ? & [= <-] & ? & _). congruence.
Qed.

(** X21.  The result of the resolver is sound: a resolved child is of the type
    asked for and is one of the related objects of an aggregation whose
    relating object is the parent. *)
Theorem find_child_sound (f : ifc_file) (parent : entity_instance)
    (marker : string) (e : entity_instance) :
  find_child subtype f parent marker = Ok (Some e) →
  is_a subtype e marker = true
  ∧ ∃ rel, rel ∈ by_type subtype f "IfcRelAggregates"
           ∧ aggregates_entity f parent rel e.
Proof.
  unfold find_child.
  generalize (by_type subtype f "IfcRelAggregates"). intros rels.
  assert (∀ found r,
            for_each_exn (scan_aggregate subtype f parent marker) rels found = Ok r →
            r = Some e →
            found = Some e
            ∨ (is_a subtype e marker = true
               ∧ ∃ rel, rel ∈ rels ∧ aggregates_entity f parent rel e)) as Hloop.
  { induction rels as [|rel rels IH]; intros found r; simpl.
    - intros [= <-] ->. by left.
    - destruct (scan_aggregate subtype f parent marker rel found) as [r1|] eqn:Hrel;
        simpl; [|done].
      intros Hrest Hr. destruct (IH _ _ Hrest Hr) as [->|(Hm & rel' & Hin & Hagg)].
      + destruct (scan_aggregate_spec _ _ _ _ _ _ Hrel)
          as [[-> _]|(e' & [= <-] & Hm & Hagg)]; [by left | right].
        split; [done|]. exists rel. split; [by left | done].
      + right. split; [done|]. exists rel'. split; [by right | done]. }
  intros H. by destruct (Hloop None _ H eq_refl) as [?|?].
Qed.

(** X22.  The resolver finds a child whenever there is one: when it returns
    nothing, no aggregation whose relating object is the parent lists an
    entity of the type asked for. *)
Theorem find_child_complete (f : ifc_file) (parent : entity_instance)
    (marker : string) :
  find_child subtype f parent marker = Ok None →
  ∀ rel e, rel ∈ by_type subtype f "IfcRelAggregates" →
           aggregates_entity f parent rel e → is_a subtype e marker = false.
Proof.
  unfold find_child.
  generalize (by_type subtype f "IfcRelAggregates"). intros rels.
  assert (∀ found,
            for_each_exn (scan_aggregate subtype f parent marker) rels found = Ok None →
            found = None
            ∧ ∀ rel e, rel ∈ rels → aggregates_entity f parent rel e →
                       is_a subtype e marker = false) as Hloop.
  { induction rels as [|rel rels IH]; intros found; simpl.
    - intros [= ->]. split; [done|]. intros rel e Hin. inversion Hin.
    - destruct (scan_aggregate subtype f parent marker rel found) as [r1|] eqn:Hrel;
        simpl; [|done].
      intros Hrest. destruct (IH _ Hrest) as [-> Hnone].
      destruct (scan_aggregate_spec _ _ _ _ _ _ Hrel) as [[<- Hrel']|(? & ? & _)];
        [|done].
      split; [done|]. intros rel' e [->|Hin]%elem_of_cons; [apply Hrel' | by apply Hnone]. }
  intros H. by destruct (Hloop None H).
Qed.

End Resolver.

Lemma find_child_sound_witness :
  find_child ifc4 scenario_a (Entity 1 "IfcProject" (Some [("Name", VStr "P")])) "IfcSite"
  = Ok (Some (Entity 2 "IfcSite" (Some [("Name", VStr "S")])))
  ∧ is_a ifc4 (Entity 2 "IfcSite" (Some [("Name", VStr "S")])) "IfcSite" = true.
Proof.
  assert (find_child ifc4 scenario_a
            (Entity 1 "IfcProject" (Some [("Name", VStr "P")])) "IfcSite"
          = Ok (Some (Entity 2 "IfcSite" (Some [("Name", VStr "S")])))) as H
    by (by vm_compute).
  split; [exact H|]. exact (proj1 (find_child_sound ifc4 _ _ _ _ H)).
Defined.

Lemma find_child_complete_witness :
  find_child ifc4 scenario_a (Entity 1 "IfcProject" (Some [("Name", VStr "P")]))
    "IfcBuilding" = Ok None
  ∧ ∀ rel e, rel ∈ by_type ifc4 scenario_a "IfcRelAggregates" →
             aggregates_entity scenario_a
               (Entity 1 "IfcProject" (Some [("Name", VStr "P")])) rel e →
             is_a ifc4 e "IfcBuilding" = false.
Proof.
  assert (find_child ifc4 scenario_a
            (Entity 1 "IfcProject" (Some [("Name", VStr "P")])) "IfcBuilding"
          = Ok None) as H by (by vm_compute).
  split; [exact H|]. exact (find_child_complete ifc4 _ _ _ H).
Defined.

(** * Properties of the output name *)

Section NamingFacts.

Variables isalnum isspace : ascii → bool.

Lemma lstrip_suffix (s : list ascii) :
  ∃ p : list ascii, s = (p ++ lstrip isspace s)%list.
Proof.
  induction s as [|c s [p Hp]]; simpl; [by exists []|].
  destruct (isspace c); [|by exists []].
  exists (c :: p). simpl. by f_equal.
Qed.

Lemma elem_of_lstrip (s : list ascii) (c : ascii) : c ∈ lstrip isspace s → c ∈ s.
Proof.
  destruct (lstrip_suffix s) as [p Hp]. intros H. rewrite Hp.
  apply elem_of_app. by right.
Qed.

Lemma elem_of_strip (s : list ascii) (c : ascii) : c ∈ strip isspace s → c ∈ s.
Proof.
  unfold strip. rewrite list_elem_of_In, <- in_rev, <- list_elem_of_In.
  intros H%elem_of_lstrip. apply list_elem_of_In, in_rev in H.
  by apply elem_of_lstrip, list_elem_of_In.
Qed.

Lemma lstrip_id (s : list ascii) :
  Forall (λ c, isspace c = false) s → lstrip isspace s = s.
Proof. destruct 1 as [|c s Hc _]; simpl; [done|]. by rewrite Hc. Qed.

Lemma strip_id (s : list ascii) :
  Forall (λ c, isspace c = false) s → strip isspace s = s.
Proof.
  intros H. unfold strip. rewrite (lstrip_id s H), lstrip_id, rev_involutive; [done|].
  apply Forall_forall. intros c Hc. rewrite Forall_forall in H. apply H.
  by apply list_elem_of_In, in_rev, list_elem_of_In.
Qed.

Lemma safe_name_chars_list (storey_name : string) :
  Forall (λ c, c ≠ " "%char ∧ (isalnum c = true ∨ c = "-"%char ∨ c = "_"%char))
         (String.list_ascii_of_string (safe_name isalnum isspace storey_name)).
Proof.
  unfold safe_name. rewrite String.list_ascii_of_string_of_list_ascii.
  unfold replace_spaces. apply Forall_forall. intros c Hc.
  apply list_elem_of_In, in_map_iff in Hc as (c0 & <- & Hc0).
  apply list_elem_of_In, elem_of_strip, list_elem_of_In, filter_In in Hc0 as [_ Hk].
  destruct (Ascii.eqb_spec c0 " ") as [->|Hne]; [split; [done | auto]|].
  split; [done|]. unfold kept in Hk. apply orb_true_iff in Hk as [?|Hk]; [by left|].
  apply bool_decide_eq_true in Hk.
  apply elem_of_cons in Hk as [?|Hk]; [done|].
  apply elem_of_cons in Hk as [?|Hk]; [auto|].
  apply list_elem_of_singleton in Hk. auto.
Qed.

(** X23.  The name put in the file name holds no space: each of its characters
    is alphanumeric, a hyphen or an underscore. *)
Theorem safe_name_chars (storey_name : string) :
  Forall (λ c, c ≠ " "%char ∧ (isalnum c = true ∨ c = "-"%char ∨ c = "_"%char))
         (String.list_ascii_of_string (safe_name isalnum isspace storey_name)).
Proof. apply safe_name_chars_list. Qed.

(** X24.  Sanitizing is idempotent, provided no alphanumeric character, hyphen
    or underscore counts as whitespace. *)
Theorem safe_name_idempotent (storey_name : string) :
  (∀ c, isalnum c = true → isspace c = false) →
  isspace "-" = false → isspace "_" = false →
  safe_name isalnum isspace (safe_name isalnum isspace storey_name)
  = safe_name isalnum isspace storey_name.
Proof.
  intros Halnum Hhyphen Hunder.
  pose proof (safe_name_chars_list storey_name) as Hall.
  rewrite <- (String.string_of_list_ascii_of_string
                (safe_name isalnum isspace storey_name)) at 2.
  unfold safe_name at 1. f_equal.
  revert Hall.
  generalize (String.list_ascii_of_string (safe_name isalnum isspace storey_name)).
  intros l Hall.
  assert (List.filter (kept isalnum) l = l) as ->.
  { apply forallb_filter_id, forallb_forall. intros c Hc%list_elem_of_In.
    rewrite Forall_forall in Hall. destruct (Hall c Hc) as [_ [Hc'|[->| ->]]].
    - unfold kept. by rewrite Hc'.
    - unfold kept. apply orb_true_iff. right. by apply bool_decide_eq_true; set_solver.
    - unfold kept. apply orb_true_iff. right. by apply bool_decide_eq_true; set_solver. }
  rewrite strip_id.
  - unfold replace_spaces. rewrite <- (map_id l) at 2. apply map_ext_in.
    intros c Hc%list_elem_of_In. rewrite Forall_forall in Hall.
    destruct (Hall c Hc) as [Hne _]. by destruct (Ascii.eqb_spec c " ").
  - eapply Forall_impl; [exact Hall|]. intros c [_ [?|[->| ->]]]; auto.
Qed.

End NamingFacts.

Lemma safe_name_idempotent_witness :
  safe_name ascii_isalnum ascii_isspace " Level 1 (EG)! " = "Level_1_EG"
  ∧ safe_name ascii_isalnum ascii_isspace
      (safe_name ascii_isalnum ascii_isspace " Level 1 (EG)! ")
    = safe_name ascii_isalnum ascii_isspace " Level 1 (EG)! ".
Proof.
  split; [by vm_compute|].
  apply (safe_name_idempotent ascii_isalnum ascii_isspace " Level 1 (EG)! ").
  - intros [[] [] [] [] [] [] [] []]; by vm_compute.
  - by vm_compute.
  - by vm_compute.
Defined.
